(** * Forest loss and carbon emission script: a shallow embedding

    The development follows [src/script.js], a Google Earth Engine script.
    The Earth Engine client library is not part of the repository; the part
    of its raster algebra the script calls is modelled in the modules
    [Image] and [Feature] below, pixel by pixel:

    - a band is a function from pixels to an optional value ([None] is a
      masked, "undefined" pixel);
    - an image is an ordered list of named bands;
    - an operation that Earth Engine rejects (a band name that matches
      nothing, a [rename] with the wrong number of names, images whose band
      counts do not agree) returns [Err].

    A pixel value is a rational number, the number a finite double denotes,
    and comparisons are the exact ones.  What the script computes with
    rounding (the biomass expressions, the hectare weighting, the area in
    hectares) goes through [Arithmetic], a record of the number operations
    of the runtime, so that no statement depends on how they round.

    The script as committed stops at line 50: [table] is the string of line
    48 and a string has no [filter].  The embedding keeps that failure
    ([script]) and models the statements behind it from the state they
    run in: [raster_statements] for lines 85-134,
    [lines_56_73] for the region variables, [stats_statement] for line
    137.  The properties of the rasters are stated on these statements. *)

From Stdlib Require Import QArith Ascii.
From stdpp Require Import base list list_numbers strings pretty gmap.

Local Open Scope Z_scope.

(** ** Errors *)

Inductive result (A : Type) : Type :=
  | Ok (a : A)
  | Err (msg : string).
Arguments Ok {A} a.
Arguments Err {A} msg.

Definition bind {A B : Type} (r : result A) (k : A -> result B) : result B :=
  match r with
  | Ok a => k a
  | Err msg => Err msg
  end.

Notation "x <<- r ;; k" := (bind r (fun x => k))
  (at level 100, r at next level, right associativity).

Definition is_ok {A : Type} (r : result A) : bool :=
  match r with Ok _ => true | Err _ => false end.

(** A [for] loop whose body may fail, run over the list of its counter
    values. *)
Fixpoint foldM {A B : Type} (f : A -> B -> result A) (l : list B) (a : A)
  : result A :=
  match l with
  | [] => Ok a
  | x :: l' => a' <<- f a x ;; foldM f l' a'
  end.

(** [for (var k = lo; k <= hi; k += 1)] visits [lo, lo+1, ..., hi], as
    long as the counter stays in the range where a double counts exactly
    (see [safe_years]). *)
Definition for_range (lo hi : Z) : list Z := seqZ lo (hi - lo + 1).

(** JavaScript's ['fc' + n] for an integer [n] below 10^21 in size:
    decimal digits, with a leading minus sign for a negative number. *)
Definition band_name (prefix : string) (n : Z) : string :=
  prefix +:+ pretty n.

(** ** Numbers

    The operations of the runtime on numbers: reading a decimal literal of
    the source, and the four operations the script uses.  Nothing is
    assumed of them; a theorem that needs a law of them says so. *)
Record Arithmetic : Type := {
  num_lit : Q -> Q;
  num_add : Q -> Q -> Q;
  num_mul : Q -> Q -> Q;
  num_div : Q -> Q -> Q;
  num_pow : Q -> Q -> Q
}.

(** ** The raster algebra *)

Module Image.
Section ops.
Context {Pixel : Type}.

Definition Band : Type := Pixel -> option Q.
Definition t : Type := list (string * Band).

Definition bandNames (img : t) : list string := map fst img.

Fixpoint find_band (name : string) (img : t) : option Band :=
  match img with
  | [] => None
  | (n, b) :: rest => if String.eqb n name then Some b else find_band name rest
  end.

Definition has_band (name : string) (img : t) : bool :=
  match find_band name img with Some _ => true | None => false end.

(** [ee.Image(c)]: one band, the constant everywhere. *)
Definition constant (c : Q) : t := [("constant", fun _ => Some c)].

(** [ee.Image().select()]: an image without bands. *)
Definition empty : t := [].

(** [img.select(name)] *)
Definition select (img : t) (name : string) : result t :=
  match find_band name img with
  | Some b => Ok [(name, b)]
  | None => Err ("Image.select: Pattern '" +:+ name +:+ "' did not match any bands.")
  end.

Definition map_bands (f : Band -> Band) (img : t) : t :=
  map (fun nb => (fst nb, f (snd nb))) img.

Definition map_values (f : Q -> Q) (b : Band) : Band :=
  fun p => option_map f (b p).

Definition of_bool (b : bool) : Q := if b then 1%Q else 0%Q.

(** Comparisons with a number give 1 or 0 where the input is defined. *)
Definition gte (img : t) (c : Q) : t :=
  map_bands (map_values (fun v => of_bool (Qle_bool c v))) img.
Definition eq (img : t) (c : Q) : t :=
  map_bands (map_values (fun v => of_bool (Qeq_bool v c))) img.
Definition neq (img : t) (c : Q) : t :=
  map_bands (map_values (fun v => of_bool (negb (Qeq_bool v c)))) img.
Definition gt (img : t) (c : Q) : t :=
  map_bands (map_values (fun v => of_bool (negb (Qle_bool v c)))) img.
Definition lte (img : t) (c : Q) : t :=
  map_bands (map_values (fun v => of_bool (Qle_bool v c))) img.

(** [img.divide(c)], in the arithmetic of the runtime. *)
Definition divide (ar : Arithmetic) (img : t) (c : Q) : t :=
  map_bands (map_values (fun v => num_div ar v c)) img.

(** [img.unmask(v)]: masked pixels take the value [v]. *)
Definition unmask_band (v : Q) (b : Band) : Band :=
  fun p => match b p with Some x => Some x | None => Some v end.
Definition unmask (img : t) (v : Q) : t := map_bands (unmask_band v) img.

(** [img.updateMask(mask)]: a pixel stays defined when it was defined and
    the mask is defined and not zero there. *)
Definition mask_band (b m : Band) : Band :=
  fun p =>
    match m p with
    | Some v => if Qeq_bool v 0 then None else b p
    | None => None
    end.

Definition updateMask (img mask : t) : result t :=
  match mask with
  | [(_, m)] => Ok (map_bands (fun b => mask_band b m) img)
  | _ =>
      if Nat.eqb (length mask) (length img)
      then Ok (zip_with (fun nb nm => (fst nb, mask_band (snd nb) (snd nm))) img mask)
      else Err "Image.updateMask: mask must have one band or as many bands as the image."
  end.

(** [img.rename(name)] with a single name. *)
Definition rename (img : t) (name : string) : result t :=
  match img with
  | [(_, b)] => Ok [(name, b)]
  | _ => Err "Image.rename: the number of names must match the number of bands."
  end.

(** [dst.addBands(src)]: the bands of [src] are appended; a band whose
    name is taken is renamed [name_1], [name_2], ... *)
Fixpoint fresh_name (fuel : nat) (i : Z) (name : string) (img : t) : string :=
  let candidate := name +:+ "_" +:+ pretty i in
  match fuel with
  | O => candidate
  | S fuel' =>
      if has_band candidate img then fresh_name fuel' (i + 1) name img
      else candidate
  end.

Definition add_band (dst : t) (nb : string * Band) : t :=
  let name :=
    if has_band (fst nb) dst then fresh_name (length dst) 1 (fst nb) dst
    else fst nb in
  dst ++ [(name, snd nb)].

Definition addBands (dst src : t) : t := fold_left add_band src dst.

(** [img1.multiply(img2)]: defined where both are; a single band is used
    against every band of the other image. *)
Definition mul_band (ar : Arithmetic) (a b : Band) : Band :=
  fun p =>
    match a p, b p with
    | Some x, Some y => Some (num_mul ar x y)
    | _, _ => None
    end.

Definition multiply (ar : Arithmetic) (img1 img2 : t) : result t :=
  match img2 with
  | [(_, m)] => Ok (map_bands (fun b => mul_band ar b m) img1)
  | _ =>
      match img1 with
      | [(_, a)] => Ok (map_bands (fun b => mul_band ar a b) img2)
      | _ =>
          if Nat.eqb (length img1) (length img2)
          then Ok (zip_with (fun na nb => (fst na, mul_band ar (snd na) (snd nb)))
                     img1 img2)
          else Err "Image.multiply: images must contain the same number of bands or only 1 band."
      end
  end.

(** [img1.and(img2)]: 1 where both values are not zero, 0 otherwise,
    masked where either is masked; bands are paired as in [multiply]. *)
Definition and_band (a b : Band) : Band :=
  fun p =>
    match a p, b p with
    | Some x, Some y => Some (of_bool (negb (Qeq_bool x 0) && negb (Qeq_bool y 0)))
    | _, _ => None
    end.

Definition and (img1 img2 : t) : result t :=
  match img2 with
  | [(_, m)] => Ok (map_bands (fun b => and_band b m) img1)
  | _ =>
      match img1 with
      | [(_, a)] => Ok (map_bands (fun b => and_band a b) img2)
      | _ =>
          if Nat.eqb (length img1) (length img2)
          then Ok (zip_with (fun na nb => (fst na, and_band (snd na) (snd nb))) img1 img2)
          else Err "Image.and: images must contain the same number of bands or only 1 band."
      end
  end.

(** [ee.Image.pixelArea()]: the area of each pixel in square metres. *)
Definition pixelArea (area : Pixel -> Q) : t := [("area", fun p => Some (area p))].

(** *** [img.expression(text, map)]

    The expression text is given as its syntax tree; a number in it is a
    decimal literal, read by the runtime. *)
Inductive expr : Type :=
  | Num (q : Q)
  | Var (name : string)
  | Add (a b : expr)
  | Mul (a b : expr)
  | Pow (a b : expr).

Fixpoint lookup_var (name : string) (env : list (string * t)) : result Band :=
  match env with
  | [] => Err ("Image.expression: unrecognized variable '" +:+ name +:+ "'.")
  | (n, img) :: rest =>
      if String.eqb n name then
        match img with
        | (_, b) :: _ => Ok b
        | [] => Err "Image.expression: image has no bands."
        end
      else lookup_var name rest
  end.

Definition lift2 (f : Q -> Q -> Q) (a b : Band) : Band :=
  fun p =>
    match a p, b p with
    | Some x, Some y => Some (f x y)
    | _, _ => None
    end.

Fixpoint eval (ar : Arithmetic) (env : list (string * t)) (e : expr) : result Band :=
  match e with
  | Num q => Ok (fun _ => Some (num_lit ar q))
  | Var name => lookup_var name env
  | Add a b => x <<- eval ar env a ;; y <<- eval ar env b ;; Ok (lift2 (num_add ar) x y)
  | Mul a b => x <<- eval ar env a ;; y <<- eval ar env b ;; Ok (lift2 (num_mul ar) x y)
  | Pow a b => x <<- eval ar env a ;; y <<- eval ar env b ;; Ok (lift2 (num_pow ar) x y)
  end.

(** The result has one band; the script renames it or masks it before
    any name is looked at, so the name given here is never observed. *)
Definition expression (ar : Arithmetic) (img : t) (e : expr) (env : list (string * t))
  : result t :=
  b <<- eval ar env e ;; Ok [("constant", b)].
End ops.
Arguments Band : clear implicits.
Arguments t : clear implicits.
End Image.

(** ** Features and the zonal reducer *)

Module Feature.
Section feat.
Context {Pixel : Type}.

Inductive value : Type :=
  | Str (s : string)
  | Number (q : Q).

(** A geometry is seen through the one thing the script asks of it, its
    area in square metres. *)
Record Geometry : Type := { area : Q }.

Record t : Type := { geometry : Geometry; properties : gmap string value }.

(** [feature.set({k: v})] *)
Definition set (f : t) (k : string) (v : value) : t :=
  {| geometry := geometry f; properties := <[k := v]> (properties f) |}.

Definition get (f : t) (k : string) : option value := properties f !! k.

(** [ee.Reducer.sum()] at a scale, over a geometry: the library's zonal
    sum of a band (weighted by the covered part of each pixel, added in
    the runtime's arithmetic).  It is not computed here: it is the
    parameter [zonal] of the functions below. *)
Definition Reducer : Type := Image.Band Pixel -> Geometry -> Q.

(** With one band the reducer's own output name is used, otherwise the
    outputs carry the band names. *)
Definition reducer_outputs (img : Image.t Pixel) : Image.t Pixel :=
  match img with
  | [(_, b)] => [("sum", b)]
  | _ => img
  end.

(** A row: the feature with one more property for each output. *)
Definition reduce_feature (zonal : Reducer) (img : Image.t Pixel) (f : t) : t :=
  fold_left (fun f' nb => set f' (fst nb) (Number (zonal (snd nb) (geometry f))))
            (reducer_outputs img) f.

(** [img.reduceRegions({collection, reducer: ee.Reducer.sum(), scale})] *)
Definition reduceRegions (zonal : Reducer) (img : Image.t Pixel) (collection : list t)
  : list t :=
  map (reduce_feature zonal img) collection.
End feat.
Arguments Reducer : clear implicits.
End Feature.

(** ** The script *)

(** The three numbers under "user input".  The years are JavaScript
    numbers that hold integers; they are integers here, and the script's
    arithmetic on them ([yr_str-2000+1], [k += 1], ['fc'+(k+2000)]) is the
    integer arithmetic as long as every number met stays where doubles
    are exact: that is [safe_years], which the theorems on the year loops
    assume. *)
Record Config : Type := {
  tree_cover : Q;
  yr_str : Z;
  yr_end : Z
}.

Definition js_safe (n : Z) : bool := (- 2 ^ 53 <? n) && (n <? 2 ^ 53).

Definition safe_years (c : Config) : bool :=
  js_safe (yr_str c - 2001) && js_safe (yr_str c + 1) &&
  js_safe (yr_end c - 2001) && js_safe (yr_end c + 1).

(** The same configuration with another end year, or another threshold. *)
Definition with_yr_end (c : Config) (e : Z) : Config :=
  {| tree_cover := tree_cover c; yr_str := yr_str c; yr_end := e |}.
Definition with_tree_cover (c : Config) (t : Q) : Config :=
  {| tree_cover := t; yr_str := yr_str c; yr_end := yr_end c |}.

(** What the script reads from Earth Engine: the two Hansen bands it
    selects (integer rasters), the above-ground biomass mosaic, the pixel
    areas, the feature collection stored under the name of line 48, and
    the zonal sum of the library. *)
Record Inputs (Pixel : Type) : Type := {
  treecover2000 : Pixel -> option Z;
  lossyear : Pixel -> option Z;
  agb_band : Image.Band Pixel;
  pixel_area : Pixel -> Q;
  regions : list (Feature.t);
  zonal_sum : Feature.Reducer Pixel
}.
Arguments treecover2000 {Pixel} _.
Arguments lossyear {Pixel} _.
Arguments agb_band {Pixel} _.
Arguments pixel_area {Pixel} _.
Arguments regions {Pixel} _.
Arguments zonal_sum {Pixel} _.

(** The raster variables after line 134. *)
Record Rasters (Pixel : Type) : Type := {
  r_bgb : Image.t Pixel;
  r_tbcarbon : Image.t Pixel;
  r_teco2 : Image.t Pixel;
  r_fc_str : Image.t Pixel;
  r_fl_stack : Image.t Pixel;
  r_fc_stack : Image.t Pixel;
  r_cb_stack : Image.t Pixel;
  r_ce_stack : Image.t Pixel;
  r_output : Image.t Pixel;
  r_areas : Image.t Pixel
}.
Arguments r_bgb {Pixel} _.
Arguments r_tbcarbon {Pixel} _.
Arguments r_teco2 {Pixel} _.
Arguments r_fc_str {Pixel} _.
Arguments r_fl_stack {Pixel} _.
Arguments r_fc_stack {Pixel} _.
Arguments r_cb_stack {Pixel} _.
Arguments r_ce_stack {Pixel} _.
Arguments r_output {Pixel} _.
Arguments r_areas {Pixel} _.

(** ** Configuration errors, in the words of the specification

    The loss-year raster starts in 2000 and the script notes that the
    latest year is 2021; a threshold is a percentage. *)
Definition epoch_first : Z := 2000.
Definition epoch_last : Z := 2021.

Definition configuration_error (c : Config) : bool :=
  (yr_str c <? epoch_first) || (epoch_last <? yr_str c) ||
  (yr_end c <? epoch_first) || (epoch_last <? yr_end c) ||
  (yr_end c <? yr_str c) ||
  negb (Qle_bool 0 (tree_cover c)) || negb (Qle_bool (tree_cover c) 100).

(** A run rejects configuration errors when every configuration in error
    ends in a failure that no valid configuration ends in. *)
Definition rejects_configuration_errors {A : Type} (run : Config -> result A) : Prop :=
  forall c, configuration_error c = true ->
    exists msg, run c = Err msg /\
      forall c', configuration_error c' = false -> run c' <> Err msg.

(** ** Concrete inputs

    Exact rational arithmetic; the power function has no exact rational
    value, a stand-in takes its place.  It serves to run the statements
    on concrete inputs. *)
Definition rational_arithmetic : Arithmetic :=
  {| num_lit := fun q => q;
     num_add := Qplus;
     num_mul := Qmult;
     num_div := Qdiv;
     num_pow := fun x _ => x |}.

(** The 2x2 raster of the end-to-end scenario: tree cover 50 in row 0 and
    10 in row 1; pixel (0,1) lost in 2001; the loss year of the never-lost
    pixels is the argument [never], [Some 0] when the raster stores the
    value 0 there and [None] when it is masked there.  One region; the
    zonal sum of the library is not computed here, a stand-in takes its
    place. *)
Definition scenario_cfg : Config :=
  {| tree_cover := 30; yr_str := 2000; yr_end := 2002 |}.

Definition scenario_region : Feature.t :=
  {| Feature.geometry := {| Feature.area := 3600 |};
     Feature.properties := {[ "COUNTRY" := Feature.Str "Brazil" ]} |}.

Definition scenario_inp (never : option Z) : Inputs (Z * Z) :=
  {| treecover2000 := fun p => Some (if fst p =? 0 then 50 else 10);
     lossyear := fun p => if (fst p =? 0) && (snd p =? 1) then Some 1 else never;
     agb_band := fun _ => Some 100%Q;
     pixel_area := fun _ => 900%Q;
     regions := [scenario_region];
     zonal_sum := fun _ _ => 0%Q |}.

(** Configurations that the specification calls errors. *)
Definition reversed_years_cfg : Config :=
  {| tree_cover := 30; yr_str := 2005; yr_end := 2003 |}.
Definition before_epoch_cfg : Config :=
  {| tree_cover := 30; yr_str := 1990; yr_end := 2030 |}.
Definition threshold_cfg : Config :=
  {| tree_cover := 150; yr_str := 2000; yr_end := 2002 |}.

(** ** The export call

    Lines 144-147: the columns of the exported table, as written. *)
Definition selectors : list string :=
  ["GID_0"; "NAME_0"; "ha"; "fc2000"; "fc2001"; "fc2002"; "fc2003"; "fc2004";
   "fc2005"; "fc2006"; "fc2007"; "fc2008"; "fc2009"; "fc2010"; "fc2011";
   "fc2012"; "fc2013"; "fc2014"; "fc2015"; "fc2016"; "fc2017"; "fc2018";
   "fc2019"; "fc2020"; "fc2021"; "fl2001"; "fl2002"; "fl2003"; "fl2004";
   "fl2005"; "fl2006"; "fl2007"; "fl2008"; "fl2009"; "fl2010"; "fl2011";
   "fl2012"; "fl2013"; "fl2014"; "fl2015"; "fl2016"; "fl2017"; "fl2018";
   "fl2019"; "fl2020"; "fl2021"; "cb2000"; "cb2001"; "cb2002"; "cb2003";
   "cb2004"; "cb2005"; "cb2006"; "cb2007"; "cb2008"; "cb2009"; "cb2010";
   "cb2011"; "cb2012"; "cb2013"; "cb2014"; "cb2015"; "cb2016"; "cb2017";
   "cb2018"; "cb2019"; "cb2020"; "cb2021"; "ce2001"; "ce2002"; "ce2003";
   "ce2004"; "ce2005"; "ce2006"; "ce2007"; "ce2008"; "ce2009"; "ce2010";
   "ce2011"; "ce2012"; "ce2013"; "ce2014"; "ce2015"; "ce2016"; "ce2017";
   "ce2018"; "ce2019"; "ce2020"; "ce2021"].

(** The columns that come from the regions, and the columns that name a
    band. *)
Definition attribute_selectors : list string := take 3 selectors.
Definition band_selectors : list string := drop 3 selectors.

(** Band names listed family by family, each family by its years. *)
Definition year_bands (fcs fls cbs ces : list Z) : list string :=
  map (band_name "fc") fcs ++ map (band_name "fl") fls ++
  map (band_name "cb") cbs ++ map (band_name "ce") ces.

(** * The script and the bands it computes *)

Section forest_carbon.
Context {Pixel : Type}.
Variable ar : Arithmetic.
Variable cfg : Config.
Variable inp : Inputs Pixel.
Implicit Types img dst src : Image.t Pixel.

(** Lines 39-41: [feature.geometry().area().multiply(0.0001)]. *)
Definition addArea_ha (feature : Feature.t) : Feature.t :=
  Feature.set feature "ha"
    (Feature.Number
       (num_mul ar (Feature.area (Feature.geometry feature)) (num_lit ar 0.0001))).

(** Lines 68-70. *)
Definition addArea_area_ha (feature : Feature.t) : Feature.t :=
  Feature.set feature "area_ha"
    (Feature.Number
       (num_mul ar (Feature.area (Feature.geometry feature)) (num_lit ar 0.0001))).

(** Line 60, restricted to the bands the script selects. *)
Definition hansen : Image.t Pixel :=
  [("treecover2000", fun p => option_map inject_Z (treecover2000 inp p));
   ("lossyear", fun p => option_map inject_Z (lossyear inp p))].

(** Line 65. *)
Definition agb : Image.t Pixel := [("b1", agb_band inp)].

(** Line 85: ['0.489 * BIO**(0.89)']. *)
Definition bgb_expr : Image.expr :=
  Image.Mul (Image.Num 0.489) (Image.Pow (Image.Var "BIO") (Image.Num 0.89)).

(** Line 88: ['(bgb + abg ) * 0.5 ']. *)
Definition tbcarbon_expr : Image.expr :=
  Image.Mul (Image.Add (Image.Var "bgb") (Image.Var "abg")) (Image.Num 0.5).

(** Line 92: ['totalcarbon * 3.67 ']. *)
Definition teco2_expr : Image.expr :=
  Image.Mul (Image.Var "totalcarbon") (Image.Num 3.67).

(** Lines 95-97. *)
Definition fc_str : result (Image.t Pixel) :=
  tc <<- Image.select hansen "treecover2000" ;;
  m1 <<- Image.updateMask (Image.constant 1) (Image.gte tc (tree_cover cfg)) ;;
  ly <<- Image.select hansen "lossyear" ;;
  m2 <<- Image.updateMask m1
           (Image.unmask (Image.gte ly (inject_Z (yr_str cfg - 2000 + 1))) 1) ;;
  Image.rename m2 (band_name "fc" (yr_str cfg)).

(** Lines 109-110, the body of the loss loop. *)
Definition fl_body (fc_str : Image.t Pixel) (fl_stack : Image.t Pixel) (k : Z)
  : result (Image.t Pixel) :=
  ly <<- Image.select hansen "lossyear" ;;
  m <<- Image.updateMask fc_str (Image.eq ly (inject_Z k)) ;;
  fl <<- Image.rename m (band_name "fl" (k + 2000)) ;;
  Ok (Image.addBands fl_stack fl).

(** Lines 115-116, the body of the forest-cover loop. *)
Definition fc_body (fl_stack : Image.t Pixel) (fc_stack : Image.t Pixel) (k : Z)
  : result (Image.t Pixel) :=
  prev <<- Image.select fc_stack (band_name "fc" (k + 2000 - 1)) ;;
  lost <<- Image.select fl_stack (band_name "fl" (k + 2000)) ;;
  m <<- Image.updateMask prev (Image.neq (Image.unmask lost 0) 1) ;;
  fc <<- Image.rename m (band_name "fc" (k + 2000)) ;;
  Ok (Image.addBands fc_stack fc).

(** Lines 121-122. *)
Definition cb_body (tbcarbon fc_stack : Image.t Pixel) (cb_stack : Image.t Pixel) (k : Z)
  : result (Image.t Pixel) :=
  fc <<- Image.select fc_stack (band_name "fc" (k + 2000)) ;;
  m <<- Image.updateMask tbcarbon (Image.eq fc 1) ;;
  cb <<- Image.rename m (band_name "cb" (k + 2000)) ;;
  Ok (Image.addBands cb_stack cb).

(** Lines 127-128. *)
Definition ce_body (teco2 fl_stack : Image.t Pixel) (ce_stack : Image.t Pixel) (k : Z)
  : result (Image.t Pixel) :=
  lost <<- Image.select fl_stack (band_name "fl" (k + 2000)) ;;
  m <<- Image.updateMask teco2 (Image.eq lost 1) ;;
  ce <<- Image.rename m (band_name "ce" (k + 2000)) ;;
  Ok (Image.addBands ce_stack ce).

(** ** The region variables (lines 39-73)

    A [var] is hoisted: it exists from the start, undefined, and each
    [var x = e] assigns it when control reaches the statement.  Both
    [addArea] are function expressions assigned this way, so a call sees
    the function assigned last before it. *)
Record Vars : Type := {
  v_addArea : option (Feature.t -> Feature.t);
  v_table : option string;
  v_sa : option (list Feature.t);
  v_sa_area : option (list Feature.t)
}.

Definition hoisted : Vars :=
  {| v_addArea := None; v_table := None; v_sa := None; v_sa_area := None |}.

Definition assign_addArea (f : Feature.t -> Feature.t) (st : Vars) : Vars :=
  {| v_addArea := Some f; v_table := v_table st; v_sa := v_sa st;
     v_sa_area := v_sa_area st |}.
Definition assign_table (s : string) (st : Vars) : Vars :=
  {| v_addArea := v_addArea st; v_table := Some s; v_sa := v_sa st;
     v_sa_area := v_sa_area st |}.
Definition assign_sa (c : list Feature.t) (st : Vars) : Vars :=
  {| v_addArea := v_addArea st; v_table := v_table st; v_sa := Some c;
     v_sa_area := v_sa_area st |}.
Definition assign_sa_area (c : list Feature.t) (st : Vars) : Vars :=
  {| v_addArea := v_addArea st; v_table := v_table st; v_sa := v_sa st;
     v_sa_area := Some c |}.

Definition read_var {A : Type} (name : string) (v : option A) : result A :=
  match v with
  | Some a => Ok a
  | None => Err ("ReferenceError: " +:+ name +:+ " is undefined")
  end.

(** [ee.FeatureCollection(name)]: the collection stored under a name. *)
Definition FeatureCollection (name : string) : list Feature.t := regions inp.

(** [s.filter(...)] where [s] is a string: a JavaScript string has no
    property [filter], calling it throws. *)
Definition string_filter (s : string) : result (list Feature.t) :=
  Err "TypeError: table.filter is not a function".

(** [collection.map(f)] on the current values of two variables. *)
Definition map_collection (c : option (list Feature.t))
    (f : option (Feature.t -> Feature.t)) : result (list Feature.t) :=
  match c, f with
  | Some l, Some g => Ok (map g l)
  | None, _ => Err "TypeError: cannot read properties of undefined (reading 'map')"
  | Some _, None => Err "FeatureCollection.map: a mapping function is required."
  end.

(** Lines 39-49: [addArea], the string [table], and [sa] loaded from it. *)
Definition lines_39_49 : result Vars :=
  let st := assign_addArea addArea_ha hoisted in
  let st := assign_table "FAO/GAUL/2015/level0" st in
  t <<- read_var "table" (v_table st) ;;
  Ok (assign_sa (FeatureCollection t) st).

(** Line 50: [var sa = table.filter(ee.Filter.eq('COUNTRY', 'Brazil'))]. *)
Definition line_50 (st : Vars) : result Vars :=
  t <<- read_var "table" (v_table st) ;;
  c <<- string_filter t ;;
  Ok (assign_sa c st).

(** Lines 56-73: [sa_area], the second [addArea], and [sa] mapped with it. *)
Definition lines_56_73 (st : Vars) : result Vars :=
  c <<- map_collection (v_sa st) (v_addArea st) ;;
  let st := assign_sa_area c st in
  let st := assign_addArea addArea_area_ha st in
  c <<- map_collection (v_sa st) (v_addArea st) ;;
  Ok (assign_sa c st).

(** ** The raster statements (lines 85-134), in order *)
Definition raster_statements : result (Rasters Pixel) :=
  bgb <<- Image.expression ar agb bgb_expr [("BIO", agb)] ;;
  tbcarbon <<- Image.expression ar agb tbcarbon_expr [("bgb", bgb); ("abg", agb)] ;;
  teco2 <<- Image.expression ar agb teco2_expr [("totalcarbon", tbcarbon)] ;;
  fc_str <<- fc_str ;;
  let lo := yr_str cfg - 2000 + 1 in
  let hi := yr_end cfg - 2000 in
  fl_stack <<- foldM (fl_body fc_str) (for_range lo hi) Image.empty ;;
  fc_stack <<- foldM (fc_body fl_stack) (for_range lo hi) fc_str ;;
  cb_stack <<- foldM (cb_body tbcarbon fc_stack)
                 (for_range (yr_str cfg - 2000) hi) Image.empty ;;
  ce_stack <<- foldM (ce_body teco2 fl_stack) (for_range lo hi) Image.empty ;;
  let output :=
    Image.addBands (Image.addBands (Image.addBands fc_stack fl_stack) cb_stack)
                   ce_stack in
  areas <<- Image.multiply ar output
              (Image.divide ar (Image.pixelArea (pixel_area inp)) 10000) ;;
  Ok {| r_bgb := bgb; r_tbcarbon := tbcarbon; r_teco2 := teco2;
        r_fc_str := fc_str; r_fl_stack := fl_stack; r_fc_stack := fc_stack;
        r_cb_stack := cb_stack; r_ce_stack := ce_stack; r_output := output;
        r_areas := areas |}.

(** Line 137: [areas.reduceRegions({collection: sa_area, ...})]. *)
Definition stats_statement (areas : Image.t Pixel) (st : Vars) : result (list Feature.t) :=
  sa_area <<- read_var "sa_area" (v_sa_area st) ;;
  Ok (Feature.reduceRegions (zonal_sum inp) areas sa_area).

(** The script from top to bottom.  Printing, map layers and the export
    call read the variables and change none of them; they are left out. *)
Definition script : result (Vars * Rasters Pixel * list Feature.t) :=
  st <<- lines_39_49 ;;
  st <<- line_50 st ;;
  st <<- lines_56_73 st ;;
  r <<- raster_statements ;;
  stats <<- stats_statement (r_areas r) st ;;
  Ok (st, r, stats).

(** Reading a band of a stack at a pixel: [None] when the stack has no
    such band, [Some None] when the band is masked there. *)
Definition band_at (img : Image.t Pixel) (name : string) (p : Pixel)
  : option (option Q) :=
  option_map (fun b => b p) (Image.find_band name img).

Definition is_defined (v : option (option Q)) : Prop :=
  exists q, v = Some (Some q).

(** A stack built from a list of indices with an injective naming. *)
Definition stack_of {I : Type} (nm : I -> string) (bnd : I -> Image.Band Pixel)
    (l : list I) : Image.t Pixel :=
  map (fun i => (nm i, bnd i)) l.

Arguments band_name : simpl never.

(** ** The value of each variable, band by band

    The definitions below write out, as one band expression each, what the
    raster statements leave in their variables; the lemmas of "The raster
    statements, one by one" prove that [raster_statements] returns exactly
    these. *)

(** The two selected Hansen bands. *)
Definition tc_band : Image.Band Pixel :=
  fun p => option_map inject_Z (treecover2000 inp p).

Definition ly_band : Image.Band Pixel :=
  fun p => option_map inject_Z (lossyear inp p).

(** Lines 95-97: the constant 1 under the two masks. *)
Definition fc_str_band : Image.Band Pixel :=
  Image.mask_band
    (Image.mask_band (fun _ => Some 1%Q)
       (Image.map_values (fun v => Image.of_bool (Qle_bool (tree_cover cfg) v)) tc_band))
    (Image.unmask_band 1
       (Image.map_values
          (fun v => Image.of_bool (Qle_bool (inject_Z (yr_str cfg - 2000 + 1)) v))
          ly_band)).

Definition fc_str_img : Image.t Pixel := [(band_name "fc" (yr_str cfg), fc_str_band)].

(** Line 109: the band appended in iteration [k] of the loss loop. *)
Definition fl_band (k : Z) : Image.Band Pixel :=
  Image.mask_band fc_str_band
    (Image.map_values (fun v => Image.of_bool (Qeq_bool v (inject_Z k))) ly_band).

Definition fl_name (k : Z) : string := band_name "fl" (k + 2000).

(** The bounds of the year loops. *)
Definition lo : Z := yr_str cfg - 2000 + 1.
Definition hi : Z := yr_end cfg - 2000.

Definition fl_stack_img : Image.t Pixel := stack_of fl_name fl_band (for_range lo hi).

(** The mask that line 115 applies in iteration [k]: 0 where [fl<k+2000>]
    is defined with value 1, 1 elsewhere. *)
Definition keep_band (k : Z) : Image.Band Pixel :=
  Image.map_values (fun v => Image.of_bool (negb (Qeq_bool v 1)))
    (Image.unmask_band 0 (fl_band k)).

(** [fc_band n] is the band [fc<yr_str + n>]. *)
Fixpoint fc_band (n : nat) : Image.Band Pixel :=
  match n with
  | O => fc_str_band
  | S n' => Image.mask_band (fc_band n') (keep_band (lo + Z.of_nat n'))
  end.

Definition fc_name (n : nat) : string := band_name "fc" (yr_str cfg + Z.of_nat n).

Definition fc_stack_upto (n : nat) : Image.t Pixel :=
  stack_of fc_name fc_band (seq 0 (S n)).

(** The number of iterations of the year loops. *)
Definition n_years : nat := Z.to_nat (yr_end cfg - yr_str cfg).

Definition fc_stack_img : Image.t Pixel := fc_stack_upto n_years.

(** Biomass (lines 85-92). *)
Definition bgb_band : Image.Band Pixel :=
  Image.lift2 (num_mul ar) (fun _ => Some (num_lit ar 0.489))
    (Image.lift2 (num_pow ar) (agb_band inp) (fun _ => Some (num_lit ar 0.89))).

Definition tbcarbon_band : Image.Band Pixel :=
  Image.lift2 (num_mul ar) (Image.lift2 (num_add ar) bgb_band (agb_band inp))
    (fun _ => Some (num_lit ar 0.5)).

Definition teco2_band : Image.Band Pixel :=
  Image.lift2 (num_mul ar) tbcarbon_band (fun _ => Some (num_lit ar 3.67)).

(** Carbon stock and emissions (lines 119-128).  [fc_index k] is the index
    of year [k + 2000] in the forest-cover stack. *)
Definition fc_index (k : Z) : nat := Z.to_nat (k + 2000 - yr_str cfg).

Definition cb_name (k : Z) : string := band_name "cb" (k + 2000).

Definition cb_band (k : Z) : Image.Band Pixel :=
  Image.mask_band tbcarbon_band
    (Image.map_values (fun v => Image.of_bool (Qeq_bool v 1)) (fc_band (fc_index k))).

Definition ce_name (k : Z) : string := band_name "ce" (k + 2000).

Definition ce_band (k : Z) : Image.Band Pixel :=
  Image.mask_band teco2_band
    (Image.map_values (fun v => Image.of_bool (Qeq_bool v 1)) (fl_band k)).

Definition cb_stack_img : Image.t Pixel :=
  stack_of cb_name cb_band (for_range (yr_str cfg - 2000) hi).

Definition ce_stack_img : Image.t Pixel :=
  stack_of ce_name ce_band (for_range lo hi).

(** The assembled stack (lines 131-137).  The first two characters of a
    band name tell the four families of bands apart. *)
Definition family (name : string) : option (Ascii.ascii * Ascii.ascii) :=
  match name with
  | String a (String b _) => Some (a, b)
  | _ => None
  end.

Definition output_img : Image.t Pixel :=
  fc_stack_img ++ fl_stack_img ++ cb_stack_img ++ ce_stack_img.

(** Hectares per pixel: [ee.Image.pixelArea().divide(10000)]. *)
Definition hectares_band : Image.Band Pixel :=
  Image.map_values (fun v => num_div ar v 10000) (fun p => Some (pixel_area inp p)).

Definition areas_img : Image.t Pixel :=
  Image.map_bands (fun b => Image.mul_band ar b hectares_band) output_img.

(** ** What the raster statements leave in their variables

    Each reader runs the raster statements and looks one band up at one
    pixel.  The result is [None] when a statement fails or the band does
    not exist, [Some None] when the band exists and is masked at the
    pixel, and [Some (Some v)] when it is defined there with value [v]. *)

Definition read_band (stack : Rasters Pixel -> Image.t Pixel) (name : string) (p : Pixel)
  : option (option Q) :=
  match raster_statements with
  | Ok r => band_at (stack r) name p
  | Err _ => None
  end.

(** [fc y p]: band [fc<y>] of [fc_stack]; likewise for the other stacks. *)
Definition fc (y : Z) (p : Pixel) : option (option Q) :=
  read_band r_fc_stack (band_name "fc" y) p.
Definition fl (y : Z) (p : Pixel) : option (option Q) :=
  read_band r_fl_stack (band_name "fl" y) p.
Definition cb (y : Z) (p : Pixel) : option (option Q) :=
  read_band r_cb_stack (band_name "cb" y) p.
Definition ce (y : Z) (p : Pixel) : option (option Q) :=
  read_band r_ce_stack (band_name "ce" y) p.

(** The single band of [bgb], [tbcarbon] and [teco2]. *)
Definition first_band_at (img : Image.t Pixel) (p : Pixel) : option (option Q) :=
  match img with
  | (_, b) :: _ => Some (b p)
  | [] => None
  end.

Definition read_single (var : Rasters Pixel -> Image.t Pixel) (p : Pixel)
  : option (option Q) :=
  match raster_statements with
  | Ok r => first_band_at (var r) p
  | Err _ => None
  end.

Definition BGB (p : Pixel) : option (option Q) := read_single r_bgb p.
Definition TotalCarbon (p : Pixel) : option (option Q) := read_single r_tbcarbon p.
Definition TotalCO2 (p : Pixel) : option (option Q) := read_single r_teco2 p.

(** The band that lines 95-97 leave in [fc_str], read on its own. *)
Definition baseline (p : Pixel) : option (option Q) :=
  match fc_str with
  | Ok img => first_band_at img p
  | Err _ => None
  end.

(** The pixel has no recorded loss in the years [(from, to]]: its loss
    year is masked or lies outside [(from - 2000, to - 2000]]. *)
Definition no_recorded_loss (p : Pixel) (from to : Z) : Prop :=
  match lossyear inp p with
  | None => True
  | Some l => ~ (from - 2000 < l <= to - 2000)
  end.

(** Hectare weighting of one reading: the value times the pixel area in
    square metres over 10000. *)
Definition to_hectares (p : Pixel) (v : option Q) : option Q :=
  match v with
  | Some x => Some (num_mul ar x (num_div ar (pixel_area inp p) 10000))
  | None => None
  end.

(** ** The loss layer shown on the map (lines 103-104) *)

Definition loss_period : result (Image.t Pixel) :=
  tc <<- Image.select hansen "treecover2000" ;;
  ly1 <<- Image.select hansen "lossyear" ;;
  ly2 <<- Image.select hansen "lossyear" ;;
  inner <<- Image.and (Image.gt ly1 (inject_Z (yr_str cfg - 2000)))
              (Image.lte ly2 (inject_Z (yr_end cfg - 2000))) ;;
  Image.and (Image.gte tc (tree_cover cfg)) inner.

(** The image given to [Map.addLayer] on line 104. *)
Definition loss_layer : result (Image.t Pixel) :=
  ly <<- Image.select hansen "lossyear" ;;
  m <<- loss_period ;;
  Image.updateMask ly m.

Definition loss_layer_at (p : Pixel) : option (option Q) :=
  match loss_layer with
  | Ok img => first_band_at img p
  | Err _ => None
  end.

(** The band names of [output], in order. *)
Definition output_bands : list string :=
  match raster_statements with
  | Ok r => Image.bandNames (r_output r)
  | Err _ => []
  end.

(** * Lemmas *)

(** ** Facts about the library model *)

Lemma Qle_bool_inject_Z (a b : Z) : Qle_bool (inject_Z a) (inject_Z b) = (a <=? b).
Proof. unfold Qle_bool, inject_Z; simpl. by rewrite !Z.mul_1_r. Qed.

Lemma Qeq_bool_inject_Z (a b : Z) : Qeq_bool (inject_Z a) (inject_Z b) = (a =? b).
Proof. unfold Qeq_bool, inject_Z; simpl. by rewrite !Z.mul_1_r. Qed.

Lemma foldM_app {A B : Type} (f : A -> B -> result A) (l1 l2 : list B) (a : A) :
  foldM f (l1 ++ l2) a = (a' <<- foldM f l1 a ;; foldM f l2 a').
Proof.
  revert a. induction l1 as [|x l1 IH]; intros a; simpl; [done|].
  destruct (f a x) as [a'|msg]; simpl; [apply IH | done].
Qed.

Lemma band_name_inj (prefix : string) (a b : Z) :
  band_name prefix a = band_name prefix b -> a = b.
Proof.
  unfold band_name. intros H.
  apply (inj (String.app prefix)) in H. by apply (inj pretty) in H.
Qed.

(** ** Band lookup and [addBands] *)

Lemma find_band_None name img :
  Image.find_band name img = None <-> name ∉ Image.bandNames img.
Proof.
  induction img as [|[n b] img IH]; simpl.
  - split; [intros _; apply not_elem_of_nil | done].
  - rewrite not_elem_of_cons. destruct (String.eqb_spec n name) as [->|Hne].
    + split; [done | by intros [? _]].
    + rewrite IH. split; [intros ?; split; [congruence | done] | by intros [_ ?]].
Qed.

Lemma has_band_false name img :
  name ∉ Image.bandNames img -> Image.has_band name img = false.
Proof. intros H. unfold Image.has_band. by apply find_band_None in H as ->. Qed.

Lemma bandNames_stack_of {I : Type} (nm : I -> string) bnd (l : list I) :
  Image.bandNames (stack_of nm bnd l) = map nm l.
Proof. unfold Image.bandNames, stack_of. rewrite map_map. done. Qed.

Lemma find_band_stack_of {I : Type} (nm : I -> string) bnd (l : list I) (i : I) :
  (forall j, j ∈ l -> nm j = nm i -> j = i) ->
  i ∈ l -> Image.find_band (nm i) (stack_of nm bnd l) = Some (bnd i).
Proof.
  induction l as [|j l IH]; intros Hinj Hin; [by apply elem_of_nil in Hin|].
  simpl. destruct (String.eqb_spec (nm j) (nm i)) as [Heq|Hne].
  - rewrite (Hinj j); [done | left | done].
  - apply IH.
    + intros j' Hj'. apply Hinj. by right.
    + apply elem_of_cons in Hin as [->|Hin]; [done | done].
Qed.

Lemma add_band_fresh dst name b :
  name ∉ Image.bandNames dst -> Image.add_band dst (name, b) = dst ++ [(name, b)].
Proof. intros H. unfold Image.add_band; simpl. by rewrite has_band_false. Qed.

Lemma addBands_fresh dst src :
  NoDup (Image.bandNames src) ->
  (forall name, name ∈ Image.bandNames src -> name ∉ Image.bandNames dst) ->
  Image.addBands dst src = dst ++ src.
Proof.
  unfold Image.addBands. revert dst.
  induction src as [|[n b] src IH]; intros dst Hnd Hdis; simpl.
  - by rewrite app_nil_r.
  - apply NoDup_cons in Hnd as [Hn Hnd].
    rewrite add_band_fresh by (apply Hdis; left).
    rewrite IH; [by rewrite <- app_assoc | done |].
    intros name Hin. unfold Image.bandNames. rewrite map_app; simpl.
    rewrite elem_of_app, list_elem_of_singleton.
    intros [Hd | ->]; [|done].
    revert Hd. apply Hdis. by right.
Qed.

Lemma bandNames_map_bands f img :
  Image.bandNames (Image.map_bands f img) = Image.bandNames img.
Proof. unfold Image.bandNames, Image.map_bands. by rewrite map_map. Qed.

Lemma find_band_map_bands f name img :
  Image.find_band name (Image.map_bands f img) =
  option_map f (Image.find_band name img).
Proof.
  induction img as [|[n b] img IH]; simpl; [done|].
  by destruct (String.eqb n name).
Qed.

(** ** Loops *)

Lemma for_range_seq (lo hi : Z) :
  for_range lo hi = map (fun i : nat => lo + Z.of_nat i) (seq 0 (Z.to_nat (hi - lo + 1))).
Proof.
  unfold for_range, seqZ. apply map_ext. intros i. lia.
Qed.

Lemma elem_of_for_range (lo hi k : Z) : k ∈ for_range lo hi <-> lo <= k <= hi.
Proof. unfold for_range. rewrite elem_of_seqZ. lia. Qed.

Lemma NoDup_for_range (lo hi : Z) : NoDup (for_range lo hi).
Proof. apply NoDup_seqZ. Qed.

(** A loop whose body appends one band, named after the counter, to its
    accumulator builds the stack of these bands in counter order. *)
Lemma foldM_append {I : Type} (f : Image.t Pixel -> I -> result (Image.t Pixel))
    (nm : I -> string) (bnd : I -> Image.Band Pixel) (l : list I) (init : Image.t Pixel) :
  (forall acc k, k ∈ l -> f acc k = Ok (Image.addBands acc [(nm k, bnd k)])) ->
  NoDup (map nm l) ->
  (forall k, k ∈ l -> nm k ∉ Image.bandNames init) ->
  foldM f l init = Ok (init ++ stack_of nm bnd l).
Proof.
  revert init. induction l as [|k l IH]; intros init Hf Hnd Hfresh; simpl.
  - by rewrite app_nil_r.
  - rewrite Hf by left. simpl.
    apply NoDup_cons in Hnd as [Hk Hnd].
    rewrite add_band_fresh by (apply Hfresh; left).
    rewrite IH; [by rewrite <- app_assoc | | done |].
    + intros acc j Hj. apply Hf. by right.
    + intros j Hj. unfold Image.bandNames. rewrite map_app; simpl.
      rewrite elem_of_app, list_elem_of_singleton.
      intros [Hin | Heq].
      * revert Hin. apply Hfresh. by right.
      * apply Hk. rewrite <- Heq. apply list_elem_of_fmap. by exists j.
Qed.

(** ** The raster statements, one by one

    Each variable holds the band, or the stack of bands, defined above. *)

Lemma fc_str_closed : fc_str = Ok fc_str_img.
Proof. reflexivity. Qed.

Lemma fl_body_closed acc k :
  fl_body fc_str_img acc k = Ok (Image.addBands acc [(fl_name k, fl_band k)]).
Proof. reflexivity. Qed.

Lemma fl_name_inj a b : fl_name a = fl_name b -> a = b.
Proof. unfold fl_name. intros H%band_name_inj. lia. Qed.

Lemma fl_stack_closed :
  foldM (fl_body fc_str_img) (for_range lo hi) Image.empty = Ok fl_stack_img.
Proof.
  rewrite (foldM_append _ fl_name fl_band).
  - done.
  - intros acc k _. apply fl_body_closed.
  - apply (NoDup_fmap_2_strong _); [|apply NoDup_for_range].
    intros a b _ _. apply fl_name_inj.
  - intros k _. apply not_elem_of_nil.
Qed.

Lemma find_fl_band k :
  lo <= k <= hi -> Image.find_band (fl_name k) fl_stack_img = Some (fl_band k).
Proof.
  intros Hk. apply find_band_stack_of.
  - intros j _. apply fl_name_inj.
  - by apply elem_of_for_range.
Qed.

Lemma fc_name_inj a b : fc_name a = fc_name b -> a = b.
Proof. unfold fc_name. intros H%band_name_inj. lia. Qed.

Lemma find_fc_band n i :
  (i <= n)%nat -> Image.find_band (fc_name i) (fc_stack_upto n) = Some (fc_band i).
Proof.
  intros Hi. apply find_band_stack_of.
  - intros j _. apply fc_name_inj.
  - apply elem_of_seq. lia.
Qed.

Lemma fc_body_closed n :
  lo + Z.of_nat n <= hi ->
  fc_body fl_stack_img (fc_stack_upto n) (lo + Z.of_nat n) = Ok (fc_stack_upto (S n)).
Proof.
  intros Hn. unfold fc_body, Image.select.
  replace (band_name "fc" (lo + Z.of_nat n + 2000 - 1)) with (fc_name n)
    by (unfold fc_name, lo; f_equal; lia).
  rewrite find_fc_band by done. simpl.
  change (band_name "fl" (lo + Z.of_nat n + 2000)) with (fl_name (lo + Z.of_nat n)).
  rewrite find_fl_band by lia. simpl.
  replace (band_name "fc" (lo + Z.of_nat n + 2000)) with (fc_name (S n))
    by (unfold fc_name, lo; f_equal; lia).
  unfold Image.addBands; simpl. rewrite add_band_fresh.
  - unfold fc_stack_upto, stack_of. rewrite (seq_S (S n)), map_app. done.
  - unfold fc_stack_upto. rewrite bandNames_stack_of.
    intros (j & Hj & Hin)%list_elem_of_fmap.
    apply fc_name_inj in Hj. apply elem_of_seq in Hin. lia.
Qed.

Lemma fc_loop_closed n :
  Z.of_nat n <= Z.max 0 (hi - lo + 1) ->
  foldM (fc_body fl_stack_img) (map (fun i : nat => lo + Z.of_nat i) (seq 0 n)) fc_str_img
  = Ok (fc_stack_upto n).
Proof.
  induction n as [|n IH]; intros Hn.
  { simpl. unfold fc_str_img, fc_stack_upto, fc_name; simpl.
    by rewrite Z.add_0_r. }
  rewrite seq_S, map_app, foldM_app, IH by lia. simpl.
  rewrite fc_body_closed by lia. done.
Qed.

Lemma fc_stack_closed :
  foldM (fc_body fl_stack_img) (for_range lo hi) fc_str_img = Ok fc_stack_img.
Proof.
  rewrite for_range_seq.
  replace (Z.to_nat (hi - lo + 1)) with n_years by (unfold n_years, hi, lo; lia).
  apply fc_loop_closed. unfold n_years, hi, lo. lia.
Qed.

Lemma bgb_closed :
  Image.expression ar agb bgb_expr [("BIO", agb)] = Ok [("constant", bgb_band)].
Proof. reflexivity. Qed.

Lemma tbcarbon_closed :
  Image.expression ar agb tbcarbon_expr
    [("bgb", [("constant", bgb_band)] : Image.t Pixel); ("abg", agb)]
  = Ok [("constant", tbcarbon_band)].
Proof. reflexivity. Qed.

Lemma teco2_closed :
  Image.expression ar agb teco2_expr
    [("totalcarbon", [("constant", tbcarbon_band)] : Image.t Pixel)]
  = Ok [("constant", teco2_band)].
Proof. reflexivity. Qed.

Lemma cb_name_inj a b : cb_name a = cb_name b -> a = b.
Proof. unfold cb_name. intros H%band_name_inj. lia. Qed.

Lemma ce_name_inj a b : ce_name a = ce_name b -> a = b.
Proof. unfold ce_name. intros H%band_name_inj. lia. Qed.

Lemma fc_name_index k :
  yr_str cfg - 2000 <= k -> fc_name (fc_index k) = band_name "fc" (k + 2000).
Proof. intros Hk. unfold fc_name, fc_index. f_equal. lia. Qed.

Lemma find_fc_year k :
  yr_str cfg - 2000 <= k <= hi ->
  Image.find_band (band_name "fc" (k + 2000)) fc_stack_img = Some (fc_band (fc_index k)).
Proof.
  intros Hk. rewrite <- fc_name_index by lia. apply find_fc_band.
  unfold fc_index, n_years, hi in *. lia.
Qed.

Lemma cb_body_closed acc k :
  yr_str cfg - 2000 <= k <= hi ->
  cb_body [("constant", tbcarbon_band)] fc_stack_img acc k
  = Ok (Image.addBands acc [(cb_name k, cb_band k)]).
Proof.
  intros Hk. unfold cb_body, Image.select. by rewrite find_fc_year.
Qed.

Lemma ce_body_closed acc k :
  lo <= k <= hi ->
  ce_body [("constant", teco2_band)] fl_stack_img acc k
  = Ok (Image.addBands acc [(ce_name k, ce_band k)]).
Proof.
  intros Hk. unfold ce_body, Image.select.
  change (band_name "fl" (k + 2000)) with (fl_name k).
  by rewrite find_fl_band.
Qed.

Lemma cb_stack_closed :
  foldM (cb_body [("constant", tbcarbon_band)] fc_stack_img)
    (for_range (yr_str cfg - 2000) hi) Image.empty = Ok cb_stack_img.
Proof.
  rewrite (foldM_append _ cb_name cb_band).
  - done.
  - intros acc k Hk%elem_of_for_range. by apply cb_body_closed.
  - apply (NoDup_fmap_2_strong _); [|apply NoDup_for_range].
    intros a b _ _. apply cb_name_inj.
  - intros k _. apply not_elem_of_nil.
Qed.

Lemma ce_stack_closed :
  foldM (ce_body [("constant", teco2_band)] fl_stack_img) (for_range lo hi) Image.empty
  = Ok ce_stack_img.
Proof.
  rewrite (foldM_append _ ce_name ce_band).
  - done.
  - intros acc k Hk%elem_of_for_range. by apply ce_body_closed.
  - apply (NoDup_fmap_2_strong _); [|apply NoDup_for_range].
    intros a b _ _. apply ce_name_inj.
  - intros k _. apply not_elem_of_nil.
Qed.

Lemma family_stack_of {I : Type} (a b : Ascii.ascii) (g : I -> Z)
    (bnd : I -> Image.Band Pixel) (l : list I) name :
  name ∈ Image.bandNames
           (stack_of (fun i => band_name (String a (String b EmptyString)) (g i)) bnd l) ->
  family name = Some (a, b).
Proof.
  rewrite bandNames_stack_of. by intros (i & -> & _)%list_elem_of_fmap.
Qed.

Lemma family_fc name : name ∈ Image.bandNames fc_stack_img -> family name = Some ("f", "c")%char.
Proof. apply (family_stack_of _ _ (fun n : nat => yr_str cfg + Z.of_nat n)). Qed.

Lemma family_fl name : name ∈ Image.bandNames fl_stack_img -> family name = Some ("f", "l")%char.
Proof. apply (family_stack_of _ _ (fun k => k + 2000)). Qed.

Lemma family_cb name : name ∈ Image.bandNames cb_stack_img -> family name = Some ("c", "b")%char.
Proof. apply (family_stack_of _ _ (fun k => k + 2000)). Qed.

Lemma family_ce name : name ∈ Image.bandNames ce_stack_img -> family name = Some ("c", "e")%char.
Proof. apply (family_stack_of _ _ (fun k => k + 2000)). Qed.

Lemma NoDup_fl_names : NoDup (Image.bandNames fl_stack_img).
Proof.
  unfold fl_stack_img. rewrite bandNames_stack_of.
  apply (NoDup_fmap_2_strong _); [|apply NoDup_for_range].
  intros a b _ _. apply fl_name_inj.
Qed.

Lemma NoDup_cb_names : NoDup (Image.bandNames cb_stack_img).
Proof.
  unfold cb_stack_img. rewrite bandNames_stack_of.
  apply (NoDup_fmap_2_strong _); [|apply NoDup_for_range].
  intros a b _ _. apply cb_name_inj.
Qed.

Lemma NoDup_ce_names : NoDup (Image.bandNames ce_stack_img).
Proof.
  unfold ce_stack_img. rewrite bandNames_stack_of.
  apply (NoDup_fmap_2_strong _); [|apply NoDup_for_range].
  intros a b _ _. apply ce_name_inj.
Qed.

Lemma output_closed :
  Image.addBands (Image.addBands (Image.addBands fc_stack_img fl_stack_img) cb_stack_img)
    ce_stack_img = output_img.
Proof.
  unfold output_img.
  rewrite (addBands_fresh fc_stack_img fl_stack_img); [|apply NoDup_fl_names|].
  2: { intros name Hfl%family_fl Hfc%family_fc. congruence. }
  rewrite (addBands_fresh _ cb_stack_img); [|apply NoDup_cb_names|].
  2: { intros name Hcb%family_cb. unfold Image.bandNames. rewrite map_app, elem_of_app.
       intros [Hfc%family_fc | Hfl%family_fl]; congruence. }
  rewrite (addBands_fresh _ ce_stack_img); [by rewrite <- !app_assoc|apply NoDup_ce_names|].
  intros name Hce%family_ce. unfold Image.bandNames. rewrite !map_app, !elem_of_app.
  intros [[Hfc%family_fc | Hfl%family_fl] | Hcb%family_cb]; congruence.
Qed.

Lemma areas_closed :
  Image.multiply ar output_img
    (Image.divide ar (Image.pixelArea (pixel_area inp)) 10000)
  = Ok areas_img.
Proof. reflexivity. Qed.

(** The raster statements never fail, and their variables hold the bands
    above. *)
Lemma raster_closed :
  raster_statements =
  Ok {| r_bgb := [("constant", bgb_band)];
        r_tbcarbon := [("constant", tbcarbon_band)];
        r_teco2 := [("constant", teco2_band)];
        r_fc_str := fc_str_img;
        r_fl_stack := fl_stack_img;
        r_fc_stack := fc_stack_img;
        r_cb_stack := cb_stack_img;
        r_ce_stack := ce_stack_img;
        r_output := output_img;
        r_areas := areas_img |}.
Proof.
  unfold raster_statements.
  rewrite bgb_closed; cbn [bind].
  rewrite tbcarbon_closed; cbn [bind].
  rewrite teco2_closed; cbn [bind].
  rewrite fc_str_closed; cbn [bind].
  fold lo hi.
  rewrite fl_stack_closed; cbn [bind].
  rewrite fc_stack_closed; cbn [bind].
  rewrite cb_stack_closed; cbn [bind].
  rewrite ce_stack_closed; cbn [bind].
  rewrite output_closed, areas_closed. done.
Qed.

(** ** Pixel-wise readings of the bands *)

Lemma fc_str_band_spec p :
  fc_str_band p =
  match treecover2000 inp p with
  | Some t =>
      if Qle_bool (tree_cover cfg) (inject_Z t) then
        match lossyear inp p with
        | None => Some 1%Q
        | Some l => if yr_str cfg - 2000 + 1 <=? l then Some 1%Q else None
        end
      else None
  | None => None
  end.
Proof.
  unfold fc_str_band, Image.mask_band, Image.unmask_band, Image.map_values,
    ly_band, tc_band.
  destruct (lossyear inp p) as [l|], (treecover2000 inp p) as [t|]; simpl;
    rewrite ?Qle_bool_inject_Z; try reflexivity.
  - by destruct (yr_str cfg - 2000 + 1 <=? l), (Qle_bool (tree_cover cfg) (inject_Z t)).
  - by destruct (yr_str cfg - 2000 + 1 <=? l).
  - by destruct (Qle_bool (tree_cover cfg) (inject_Z t)).
Qed.

Lemma fc_str_band_values p : fc_str_band p = Some 1%Q \/ fc_str_band p = None.
Proof.
  rewrite fc_str_band_spec.
  repeat match goal with
         | |- context [match ?c with _ => _ end] => destruct c
         end; auto.
Qed.

Lemma fl_band_spec k p :
  fl_band k p =
  match lossyear inp p with
  | Some l => if l =? k then fc_str_band p else None
  | None => None
  end.
Proof.
  unfold fl_band, Image.mask_band, Image.map_values, ly_band.
  destruct (lossyear inp p) as [l|]; simpl; [|done].
  rewrite Qeq_bool_inject_Z. by destruct (l =? k).
Qed.

Lemma fl_band_values k p : fl_band k p = Some 1%Q \/ fl_band k p = None.
Proof.
  rewrite fl_band_spec. destruct (lossyear inp p) as [l|]; [|by right].
  destruct (l =? k); [apply fc_str_band_values | by right].
Qed.

Lemma keep_band_spec k p :
  keep_band k p = Some (match fl_band k p with Some _ => 0%Q | None => 1%Q end).
Proof.
  unfold keep_band, Image.map_values, Image.unmask_band.
  by destruct (fl_band_values k p) as [-> | ->].
Qed.

Lemma fc_band_step n p :
  fc_band (S n) p =
  match fl_band (lo + Z.of_nat n) p with Some _ => None | None => fc_band n p end.
Proof.
  simpl. unfold Image.mask_band. rewrite keep_band_spec.
  by destruct (fl_band (lo + Z.of_nat n) p).
Qed.

Lemma fc_band_spec n p :
  fc_band n p =
  match lossyear inp p with
  | Some l => if (lo <=? l) && (l <? lo + Z.of_nat n) then None else fc_str_band p
  | None => fc_str_band p
  end.
Proof.
  induction n as [|n IH].
  - cbn [fc_band]. destruct (lossyear inp p) as [l|]; [|done].
    destruct (Z.leb_spec lo l); [|done].
    destruct (Z.ltb_spec l (lo + Z.of_nat 0)); [lia | done].
  - rewrite fc_band_step, IH, fl_band_spec.
    destruct (lossyear inp p) as [l|]; [|done].
    destruct (Z.eqb_spec l (lo + Z.of_nat n)) as [->|Hne].
    + replace (lo <=? lo + Z.of_nat n) with true by (symmetry; apply Z.leb_le; lia).
      replace (lo + Z.of_nat n <? lo + Z.of_nat (S n)) with true
        by (symmetry; apply Z.ltb_lt; lia).
      replace (lo + Z.of_nat n <? lo + Z.of_nat n) with false
        by (symmetry; apply Z.ltb_ge; lia).
      simpl. by destruct (fc_str_band p).
    + destruct (Z.leb_spec lo l); simpl; [|done].
      destruct (Z.ltb_spec l (lo + Z.of_nat n)), (Z.ltb_spec l (lo + Z.of_nat (S n)));
        try done; lia.
Qed.

Lemma fc_band_values n p : fc_band n p = Some 1%Q \/ fc_band n p = None.
Proof.
  rewrite fc_band_spec. destruct (lossyear inp p) as [l|].
  - destruct (_ && _); [by right | apply fc_str_band_values].
  - apply fc_str_band_values.
Qed.

Lemma cb_band_spec k p :
  cb_band k p = match fc_band (fc_index k) p with Some _ => tbcarbon_band p | None => None end.
Proof.
  unfold cb_band, Image.mask_band, Image.map_values.
  by destruct (fc_band_values (fc_index k) p) as [-> | ->].
Qed.

(** The emission band, for completeness: [TotalCO2] where [fl] is defined. *)
Lemma ce_band_spec k p :
  ce_band k p = match fl_band k p with Some _ => teco2_band p | None => None end.
Proof.
  unfold ce_band, Image.mask_band, Image.map_values.
  by destruct (fl_band_values k p) as [-> | ->].
Qed.

(** ** Reading the stacks *)

Lemma fc_read y p :
  yr_str cfg <= y <= yr_end cfg ->
  fc y p = Some (fc_band (Z.to_nat (y - yr_str cfg)) p).
Proof.
  intros Hy. unfold fc, read_band. rewrite raster_closed; simpl.
  unfold band_at. replace y with ((y - 2000) + 2000) at 1 by lia.
  rewrite find_fc_year by (unfold hi; lia). simpl.
  unfold fc_index. do 3 f_equal. lia.
Qed.

Lemma fc_read_baseline p : fc (yr_str cfg) p = Some (fc_str_band p).
Proof.
  unfold fc, read_band. rewrite raster_closed; simpl.
  unfold band_at, fc_stack_img.
  replace (band_name "fc" (yr_str cfg)) with (fc_name 0)
    by (unfold fc_name; f_equal; simpl; lia).
  rewrite find_fc_band by lia. done.
Qed.

Lemma fl_read y p :
  yr_str cfg < y <= yr_end cfg -> fl y p = Some (fl_band (y - 2000) p).
Proof.
  intros Hy. unfold fl, read_band. rewrite raster_closed; simpl.
  unfold band_at. replace (band_name "fl" y) with (fl_name (y - 2000))
    by (unfold fl_name; f_equal; lia).
  rewrite find_fl_band by (unfold lo, hi; lia). done.
Qed.

Lemma cb_read y p :
  yr_str cfg <= y <= yr_end cfg -> cb y p = Some (cb_band (y - 2000) p).
Proof.
  intros Hy. unfold cb, read_band. rewrite raster_closed; simpl.
  unfold band_at, cb_stack_img.
  replace (band_name "cb" y) with (cb_name (y - 2000))
    by (unfold cb_name; f_equal; lia).
  rewrite find_band_stack_of; [done | |].
  - intros j _. apply cb_name_inj.
  - apply elem_of_for_range. unfold hi. lia.
Qed.

Lemma in_loss_range y l :
  yr_str cfg <= y ->
  (lo <=? l) && (l <? lo + Z.of_nat (Z.to_nat (y - yr_str cfg))) = true
  <-> yr_str cfg - 2000 < l <= y - 2000.
Proof.
  intros Hy. rewrite andb_true_iff, Z.leb_le, Z.ltb_lt. unfold lo. lia.
Qed.

Lemma single_read :
  (forall p, BGB p = Some (bgb_band p)) /\
  (forall p, TotalCarbon p = Some (tbcarbon_band p)) /\
  (forall p, TotalCO2 p = Some (teco2_band p)).
Proof.
  unfold BGB, TotalCarbon, TotalCO2, read_single. rewrite raster_closed. done.
Qed.

Lemma fc_band_mono n0 n p q :
  (n0 <= n)%nat -> fc_band n p = Some q -> fc_band n0 p = Some q.
Proof.
  induction 1 as [|n Hle IH]; [done|].
  rewrite fc_band_step. destruct (fl_band (lo + Z.of_nat n) p); [done | apply IH].
Qed.

(** ** The zonal reducer and the band names *)

Lemma fold_set_geometry (l : Image.t Pixel) (g : Feature.Geometry) (f : Feature.t) :
  Feature.geometry
    (fold_left (fun f' nb => Feature.set f' (fst nb) (Feature.Number (zonal_sum inp (snd nb) g)))
       l f) = Feature.geometry f.
Proof. revert f. induction l as [|nb l IH]; intros f; simpl; [done | by rewrite IH]. Qed.

Lemma fold_set_get (l : Image.t Pixel) (g : Feature.Geometry) (f : Feature.t) (k : string) :
  k ∉ Image.bandNames l ->
  Feature.get
    (fold_left (fun f' nb => Feature.set f' (fst nb) (Feature.Number (zonal_sum inp (snd nb) g)))
       l f) k = Feature.get f k.
Proof.
  revert f. induction l as [|[n b] l IH]; intros f Hk; simpl; [done|].
  apply not_elem_of_cons in Hk as [Hne Hk]. rewrite IH by done.
  unfold Feature.get, Feature.set; simpl. by rewrite lookup_insert_ne.
Qed.

Lemma reducer_outputs_names img name :
  name ∈ Image.bandNames (Feature.reducer_outputs img) ->
  name = "sum" \/ name ∈ Image.bandNames img.
Proof.
  destruct img as [|[n b] [|nb img]]; simpl; auto.
  intros ->%list_elem_of_singleton. by left.
Qed.

Lemma output_family name :
  name ∈ Image.bandNames output_img ->
  family name = Some ("f", "c")%char \/ family name = Some ("f", "l")%char \/
  family name = Some ("c", "b")%char \/ family name = Some ("c", "e")%char.
Proof.
  unfold output_img, Image.bandNames. rewrite !map_app, !elem_of_app.
  intros [H%family_fc | [H%family_fl | [H%family_cb | H%family_ce]]]; auto.
Qed.

(** A property whose name is neither ["sum"] nor in one of the four band
    families goes through the reducer unchanged. *)
Lemma reduce_feature_get (f : Feature.t) (k : string) :
  k <> "sum" ->
  (forall ab, family k = Some ab ->
     ab <> ("f", "c")%char /\ ab <> ("f", "l")%char /\
     ab <> ("c", "b")%char /\ ab <> ("c", "e")%char) ->
  Feature.get (Feature.reduce_feature (zonal_sum inp) areas_img f) k = Feature.get f k.
Proof.
  intros Hsum Hfam. unfold Feature.reduce_feature. apply fold_set_get.
  intros [-> | Hin]%reducer_outputs_names; [done|].
  unfold areas_img in Hin. rewrite bandNames_map_bands in Hin.
  apply output_family in Hin.
  destruct Hin as [H | [H | [H | H]]]; destruct (Hfam _ H) as (? & ? & ? & ?); done.
Qed.

Lemma fc_names :
  Image.bandNames fc_stack_img =
  band_name "fc" (yr_str cfg) ::
  map (band_name "fc") (for_range (yr_str cfg + 1) (yr_end cfg)).
Proof.
  unfold fc_stack_img, fc_stack_upto. rewrite bandNames_stack_of.
  rewrite for_range_seq.
  replace (Z.to_nat (yr_end cfg - (yr_str cfg + 1) + 1)) with n_years
    by (unfold n_years; lia).
  simpl. f_equal.
  - unfold fc_name. f_equal. simpl. lia.
  - rewrite <- seq_shift, !map_map. apply map_ext. intros i.
    unfold fc_name. f_equal. lia.
Qed.

Lemma bandNames_app img1 img2 :
  Image.bandNames (img1 ++ img2) = Image.bandNames img1 ++ Image.bandNames img2.
Proof. apply map_app. Qed.

Lemma year_names (prefix : string) (a : Z) :
  map (fun k => band_name prefix (k + 2000)) (for_range (a - 2000) hi) =
  map (band_name prefix) (for_range a (yr_end cfg)).
Proof.
  rewrite !for_range_seq.
  replace (Z.to_nat (hi - (a - 2000) + 1)) with (Z.to_nat (yr_end cfg - a + 1))
    by (unfold hi; lia).
  rewrite !map_map. apply map_ext. intros i. f_equal. lia.
Qed.

(** ** Lookup, names and the loss layer *)

Lemma find_ce_band k :
  lo <= k <= hi -> Image.find_band (ce_name k) ce_stack_img = Some (ce_band k).
Proof.
  intros Hk. apply find_band_stack_of.
  - intros j _. apply ce_name_inj.
  - by apply elem_of_for_range.
Qed.

Lemma ce_read y p :
  yr_str cfg < y <= yr_end cfg -> ce y p = Some (ce_band (y - 2000) p).
Proof.
  intros Hy. unfold ce, read_band. rewrite raster_closed; simpl.
  unfold band_at.
  replace (band_name "ce" y) with (ce_name (y - 2000))
    by (unfold ce_name; f_equal; lia).
  rewrite find_ce_band by (unfold lo, hi; lia). done.
Qed.

Lemma year_index y :
  yr_str cfg < y ->
  Z.to_nat (y - yr_str cfg) = S (Z.to_nat (y - 1 - yr_str cfg)) /\
  y - 2000 = lo + Z.of_nat (Z.to_nat (y - 1 - yr_str cfg)).
Proof. unfold lo. lia. Qed.

Lemma elem_of_year_bands (s : string) (fcs fls cbs ces : list Z) :
  s ∈ year_bands fcs fls cbs ces <->
  (exists y, s = band_name "fc" y /\ y ∈ fcs) \/
  (exists y, s = band_name "fl" y /\ y ∈ fls) \/
  (exists y, s = band_name "cb" y /\ y ∈ cbs) \/
  (exists y, s = band_name "ce" y /\ y ∈ ces).
Proof.
  unfold year_bands. rewrite !elem_of_app.
  by rewrite !(list_elem_of_fmap (B := string)).
Qed.

Lemma year_bands_subset (fcs fls cbs ces fcs' fls' cbs' ces' : list Z) :
  (forall s, s ∈ year_bands fcs fls cbs ces -> s ∈ year_bands fcs' fls' cbs' ces') <->
  (forall y, y ∈ fcs -> y ∈ fcs') /\ (forall y, y ∈ fls -> y ∈ fls') /\
  (forall y, y ∈ cbs -> y ∈ cbs') /\ (forall y, y ∈ ces -> y ∈ ces').
Proof.
  split.
  - intros Hsub. repeat split; intros y Hy.
    + destruct (proj1 (elem_of_year_bands _ _ _ _ _)
                  (Hsub (band_name "fc" y) (proj2 (elem_of_year_bands _ _ _ _ _)
                     (or_introl (ex_intro _ y (conj eq_refl Hy)))))) as
        [(y' & He & ?) | [(y' & He & ?) | [(y' & He & ?) | (y' & He & ?)]]];
        [by apply band_name_inj in He as -> | apply (f_equal family) in He; done..].
    + destruct (proj1 (elem_of_year_bands _ _ _ _ _)
                  (Hsub (band_name "fl" y) (proj2 (elem_of_year_bands _ _ _ _ _)
                     (or_intror (or_introl (ex_intro _ y (conj eq_refl Hy))))))) as
        [(y' & He & ?) | [(y' & He & ?) | [(y' & He & ?) | (y' & He & ?)]]];
        [apply (f_equal family) in He; done | by apply band_name_inj in He as ->
        | apply (f_equal family) in He; done..].
    + destruct (proj1 (elem_of_year_bands _ _ _ _ _)
                  (Hsub (band_name "cb" y) (proj2 (elem_of_year_bands _ _ _ _ _)
                     (or_intror (or_intror (or_introl (ex_intro _ y (conj eq_refl Hy)))))))) as
        [(y' & He & ?) | [(y' & He & ?) | [(y' & He & ?) | (y' & He & ?)]]];
        [apply (f_equal family) in He; done.. | by apply band_name_inj in He as ->
        | apply (f_equal family) in He; done].
    + destruct (proj1 (elem_of_year_bands _ _ _ _ _)
                  (Hsub (band_name "ce" y) (proj2 (elem_of_year_bands _ _ _ _ _)
                     (or_intror (or_intror (or_intror (ex_intro _ y (conj eq_refl Hy)))))))) as
        [(y' & He & ?) | [(y' & He & ?) | [(y' & He & ?) | (y' & He & ?)]]];
        [apply (f_equal family) in He; done.. | by apply band_name_inj in He as ->].
  - intros (Hfc & Hfl & Hcb & Hce) s. rewrite !elem_of_year_bands.
    intros [(y & -> & ?) | [(y & -> & ?) | [(y & -> & ?) | (y & -> & ?)]]]; eauto 10.
Qed.

Lemma output_bands_years :
  output_bands =
  year_bands (yr_str cfg :: for_range (yr_str cfg + 1) (yr_end cfg))
             (for_range (yr_str cfg + 1) (yr_end cfg))
             (for_range (yr_str cfg) (yr_end cfg))
             (for_range (yr_str cfg + 1) (yr_end cfg)).
Proof.
  unfold output_bands. rewrite raster_closed. cbn [r_output].
  unfold output_img. rewrite !bandNames_app, fc_names.
  unfold fl_stack_img, cb_stack_img, ce_stack_img. rewrite !bandNames_stack_of.
  unfold lo, fl_name, cb_name, ce_name.
  replace (yr_str cfg - 2000 + 1) with (yr_str cfg + 1 - 2000) by lia.
  by rewrite !year_names.
Qed.

Lemma band_selectors_years :
  band_selectors =
  year_bands (for_range 2000 2021) (for_range 2001 2021)
             (for_range 2000 2021) (for_range 2001 2021).
Proof. vm_compute. reflexivity. Qed.

Lemma columns_in_bands_iff :
  (forall s, s ∈ band_selectors -> s ∈ output_bands) <->
  yr_str cfg <= 2000 /\ 2021 <= yr_end cfg.
Proof.
  rewrite band_selectors_years, output_bands_years, year_bands_subset. split.
  - intros (_ & Hfl & _ & _).
    pose proof (Hfl 2001) as H1. pose proof (Hfl 2021) as H2.
    rewrite !elem_of_for_range in H1, H2. lia.
  - intros Hr. repeat split; intros y; rewrite ?elem_of_cons, !elem_of_for_range; lia.
Qed.

Lemma bands_in_columns_iff :
  (forall s, s ∈ output_bands -> s ∈ band_selectors) <->
  2000 <= yr_str cfg <= 2021 /\ yr_end cfg <= 2021.
Proof.
  rewrite band_selectors_years, output_bands_years, year_bands_subset. split.
  - intros (Hfc & _ & Hcb & _).
    pose proof (Hfc (yr_str cfg)) as H1. pose proof (Hcb (yr_end cfg)) as H2.
    rewrite elem_of_cons, !elem_of_for_range in H1.
    rewrite !elem_of_for_range in H2. lia.
  - intros Hr. repeat split; intros y; rewrite ?elem_of_cons, !elem_of_for_range; lia.
Qed.

Lemma loss_layer_spec p :
  loss_layer_at p =
  Some (match lossyear inp p, treecover2000 inp p with
        | Some l, Some t =>
            if Qle_bool (tree_cover cfg) (inject_Z t) &&
               ((yr_str cfg - 2000 <? l) && (l <=? yr_end cfg - 2000))
            then Some (inject_Z l) else None
        | _, _ => None
        end).
Proof.
  unfold loss_layer_at, loss_layer, loss_period; simpl.
  unfold Image.mask_band, Image.and_band, Image.map_values; simpl.
  destruct (lossyear inp p) as [l|], (treecover2000 inp p) as [t|]; simpl; try done.
  rewrite !Qle_bool_inject_Z, (Z.ltb_antisym l (yr_str cfg - 2000)).
  by destruct (Qle_bool (tree_cover cfg) (inject_Z t)),
    (l <=? yr_str cfg - 2000), (l <=? yr_end cfg - 2000).
Qed.

(** A pixel lost in the iteration after [n] was still forest in band [n]. *)
Lemma fl_in_fc n p q :
  fl_band (lo + Z.of_nat n) p = Some q -> fc_band n p = Some q.
Proof.
  rewrite fl_band_spec, fc_band_spec.
  destruct (lossyear inp p) as [l|]; [|done].
  destruct (Z.eqb_spec l (lo + Z.of_nat n)) as [->|]; [|done].
  replace (lo + Z.of_nat n <? lo + Z.of_nat n) with false
    by (symmetry; apply Z.ltb_ge; lia).
  by rewrite andb_false_r.
Qed.

(** ** The region statements *)

Lemma lines_39_49_closed :
  lines_39_49 =
  Ok {| v_addArea := Some addArea_ha; v_table := Some "FAO/GAUL/2015/level0";
        v_sa := Some (regions inp); v_sa_area := None |}.
Proof. reflexivity. Qed.

Lemma script_closed : script = Err "TypeError: table.filter is not a function".
Proof. reflexivity. Qed.

(** * The claims *)

(** C1, on the statements of lines 95-116.  For a year [y] in
    [[yr_str, yr_end]], the band [fc<y>] that the forest-cover loop leaves
    in [fc_stack] exists, takes no value but 1, and is defined at a pixel
    exactly when the baseline band [fc<yr_str>] is defined there and the
    pixel has no recorded loss in the years [(yr_str, y]]. *)
Theorem C1_forest_cover_contract (y : Z) (p : Pixel) :
  safe_years cfg = true ->
  yr_str cfg <= y <= yr_end cfg ->
  (fc y p = Some (Some 1%Q) \/ fc y p = Some None) /\
  (fc y p = Some (Some 1%Q) <->
   fc (yr_str cfg) p = Some (Some 1%Q) /\ no_recorded_loss p (yr_str cfg) y).
Proof.
  intros _ Hy. rewrite fc_read by done. rewrite fc_read_baseline, fc_band_spec.
  unfold no_recorded_loss.
  destruct (lossyear inp p) as [l|].
  - pose proof (in_loss_range y l (proj1 Hy)) as Hrange.
    destruct ((lo <=? l) && (l <? lo + Z.of_nat (Z.to_nat (y - yr_str cfg)))).
    + split; [by right|]. split; [done|]. intros [_ Hno]. destruct Hno. by apply Hrange.
    + split.
      * destruct (fc_str_band_values p) as [-> | ->]; auto.
      * split; [|by intros [? _]]. intros H. split; [done|].
        intros Hin%Hrange. done.
  - split.
    + destruct (fc_str_band_values p) as [-> | ->]; auto.
    + split; [by intros ? | by intros [? _]].
Qed.

(** C2, on the forest-cover loop of lines 113-116.  Monotonic shrinkage:
    for a year [y] in [(yr_str, yr_end]], a pixel defined in [fc<y>] is
    defined in [fc<y-1>]; and a pixel that is not defined in the band of
    some earlier year [y0] is not defined in [fc<y>]: once out of the
    mask, it never comes back. *)
Theorem C2_monotonic_shrinkage (y : Z) (p : Pixel) :
  safe_years cfg = true ->
  yr_str cfg < y <= yr_end cfg ->
  (is_defined (fc y p) -> is_defined (fc (y - 1) p)) /\
  (forall y0, yr_str cfg <= y0 <= y -> ~ is_defined (fc y0 p) -> ~ is_defined (fc y p)).
Proof.
  intros _ Hy.
  assert (Hmono : forall y0, yr_str cfg <= y0 <= y ->
                    is_defined (fc y p) -> is_defined (fc y0 p)).
  { intros y0 Hy0. rewrite !fc_read by lia. intros [q Hq]. exists q.
    injection Hq as Hq. f_equal. apply (fc_band_mono _ (Z.to_nat (y - yr_str cfg))); [lia | done]. }
  split.
  - apply Hmono. lia.
  - intros y0 Hy0 Hundef Hdef. apply Hundef. by apply Hmono.
Qed.

(** C6, on the statements of lines 95-110.  For a year [y] in
    [(yr_str, yr_end]], the band [fl<y>] is the baseline band [fc<yr_str>]
    kept where [lossyear] equals [y - 2000] and masked elsewhere; a pixel
    that is not defined in the baseline is not defined in [fl<y>],
    whatever its loss year. *)
Theorem C6_loss_scoped_to_baseline (y : Z) (p : Pixel) :
  safe_years cfg = true ->
  yr_str cfg < y <= yr_end cfg ->
  exists base,
    fc (yr_str cfg) p = Some base /\
    fl y p = Some (match lossyear inp p with
                   | Some l => if l =? y - 2000 then base else None
                   | None => None
                   end) /\
    (~ is_defined (fc (yr_str cfg) p) -> ~ is_defined (fl y p)).
Proof.
  intros _ Hy. exists (fc_str_band p).
  rewrite fc_read_baseline, fl_read by done. rewrite fl_band_spec.
  split; [done|]. split; [done|].
  intros Hbase [q Hq]. apply Hbase. exists q.
  destruct (lossyear inp p) as [l|]; [|done].
  destruct (l =? y - 2000); [done | done].
Qed.

(** C7, on the loss loop of lines 107-110.  Mutual exclusivity: for two
    distinct years in [(yr_str, yr_end]], the bands [fl<y1>] and [fl<y2>]
    are not both defined at a pixel. *)
Theorem C7_loss_years_exclusive (y1 y2 : Z) (p : Pixel) :
  safe_years cfg = true ->
  yr_str cfg < y1 <= yr_end cfg ->
  yr_str cfg < y2 <= yr_end cfg ->
  y1 <> y2 ->
  ~ (is_defined (fl y1 p) /\ is_defined (fl y2 p)).
Proof.
  intros _ H1 H2 Hne. rewrite !fl_read by done. rewrite !fl_band_spec.
  intros [[q1 Hq1] [q2 Hq2]].
  destruct (lossyear inp p) as [l|]; [|done].
  destruct (Z.eqb_spec l (y1 - 2000)); [|done].
  destruct (Z.eqb_spec l (y2 - 2000)); [lia | done].
Qed.

(** C8, on the statements of lines 119-122.  Carbon stock subset law: for
    a year [y] in [[yr_str, yr_end]], the band [cb<y>] is [TotalCarbon]
    kept where [fc<y>] equals 1 and masked elsewhere; where [cb<y>] is
    defined, [fc<y>] is defined and the value of [cb<y>] is the pixel's
    [TotalCarbon]. *)
Theorem C8_carbon_stock_subset (y : Z) (p : Pixel) :
  safe_years cfg = true ->
  yr_str cfg <= y <= yr_end cfg ->
  exists f t,
    fc y p = Some f /\ TotalCarbon p = Some t /\
    cb y p = Some (match f with
                   | Some v => if Qeq_bool v 1 then t else None
                   | None => None
                   end) /\
    (is_defined (cb y p) -> is_defined (fc y p) /\ cb y p = TotalCarbon p).
Proof.
  intros _ Hy. destruct single_read as (_ & Htc & _).
  exists (fc_band (Z.to_nat (y - yr_str cfg)) p), (tbcarbon_band p).
  rewrite fc_read, cb_read, Htc by done. rewrite cb_band_spec.
  replace (fc_index (y - 2000)) with (Z.to_nat (y - yr_str cfg))
    by (unfold fc_index; lia).
  split; [done|]. split; [done|].
  destruct (fc_band_values (Z.to_nat (y - yr_str cfg)) p) as [-> | ->]; simpl.
  - split; [done|]. intros _. split; [by exists 1%Q | done].
  - split; [done|]. by intros [q Hq].
Qed.

(** C5, on the three expressions of lines 85-92.  In the arithmetic of
    the runtime, with an addition that commutes: where AGB is defined with
    a value [a] that is not negative, BGB is [0.489 * a^0.89], TotalCarbon
    is [(a + BGB) * 0.5] and TotalCO2 is [TotalCarbon * 3.67]; where AGB
    is masked, the three are masked.  (A negative base has no power in
    the numbers modelled; biomass is not negative.) *)
Theorem C5_biomass_formulas (p : Pixel) :
  (forall x y, num_add ar x y = num_add ar y x) ->
  (forall a, agb_band inp p = Some a -> (0 <= a)%Q ->
     exists b c,
       b = num_mul ar (num_lit ar 0.489) (num_pow ar a (num_lit ar 0.89)) /\
       c = num_mul ar (num_add ar a b) (num_lit ar 0.5) /\
       BGB p = Some (Some b) /\
       TotalCarbon p = Some (Some c) /\
       TotalCO2 p = Some (Some (num_mul ar c (num_lit ar 3.67)))) /\
  (agb_band inp p = None ->
     BGB p = Some None /\ TotalCarbon p = Some None /\ TotalCO2 p = Some None).
Proof.
  intros Hcomm. destruct single_read as (Hb & Hc & He). rewrite Hb, Hc, He.
  unfold teco2_band, tbcarbon_band, bgb_band, Image.lift2.
  split.
  - intros a -> _. do 2 eexists. split; [reflexivity|]. split; [reflexivity|].
    by rewrite (Hcomm a).
  - by intros ->.
Qed.

(** C9, on the statements of lines 131-137.  Uniform hectare weighting:
    the assembled stack holds the [fc], [fl], [cb] and [ce] bands of the
    year range; [areas] has the same band names, and every one of its
    bands is the band of the assembled stack times pixel area over 10000,
    in the arithmetic of the runtime; and [areas] is the image that line
    137 gives to the reducer. *)
Theorem C9_uniform_hectare_weighting :
  safe_years cfg = true ->
  exists r,
    raster_statements = Ok r /\
    Image.bandNames (r_output r) =
      (band_name "fc" (yr_str cfg) ::
       map (band_name "fc") (for_range (yr_str cfg + 1) (yr_end cfg))) ++
      map (band_name "fl") (for_range (yr_str cfg + 1) (yr_end cfg)) ++
      map (band_name "cb") (for_range (yr_str cfg) (yr_end cfg)) ++
      map (band_name "ce") (for_range (yr_str cfg + 1) (yr_end cfg)) /\
    Image.bandNames (r_areas r) = Image.bandNames (r_output r) /\
    (forall name p,
       band_at (r_areas r) name p =
       option_map (to_hectares p) (band_at (r_output r) name p)) /\
    (forall st c, v_sa_area st = Some c ->
       stats_statement (r_areas r) st =
       Ok (Feature.reduceRegions (zonal_sum inp) (r_areas r) c)).
Proof.
  intros _. eexists. split; [apply raster_closed|].
  cbn [r_output r_areas]. repeat split.
  - unfold output_img. rewrite !bandNames_app, fc_names.
    unfold fl_stack_img, cb_stack_img, ce_stack_img. rewrite !bandNames_stack_of.
    unfold lo, fl_name, cb_name, ce_name.
    replace (yr_str cfg - 2000 + 1) with (yr_str cfg + 1 - 2000) by lia.
    by rewrite !year_names.
  - apply bandNames_map_bands.
  - intros name p. unfold band_at, areas_img. rewrite find_band_map_bands.
    destruct (Image.find_band name output_img) as [b|]; simpl; [|done].
    unfold Image.mul_band, hectares_band, Image.map_values, to_hectares; simpl.
    by destruct (b p).
  - intros st c Hc. unfold stats_statement. by rewrite Hc.
Qed.

(** C10, on the statements of lines 39-41, 56, 68-73 and 137, run from
    the state that lines 39-49 leave with a collection [c] in [sa] (the
    committed line 50 throws instead of leaving one).  The collection
    given to the reducer is [sa_area], the collection mapped with the
    first [addArea]: each row keeps the geometry of its region and carries
    [ha], the geometry area times 0.0001 in the arithmetic of the runtime.
    The second [addArea] only reaches the variable [sa]: the [area_ha]
    property of a row is whatever the region had. *)
Theorem C10_rows_carry_first_addArea (c : list Feature.t) :
  safe_years cfg = true ->
  exists st49 st r rows,
    lines_39_49 = Ok st49 /\
    lines_56_73 (assign_sa c st49) = Ok st /\
    v_sa_area st = Some (map addArea_ha c) /\
    v_sa st = Some (map addArea_area_ha c) /\
    raster_statements = Ok r /\
    stats_statement (r_areas r) st = Ok rows /\
    Forall2
      (fun region row =>
         Feature.geometry row = Feature.geometry region /\
         Feature.get row "ha" =
           Some (Feature.Number
                   (num_mul ar (Feature.area (Feature.geometry region)) (num_lit ar 0.0001))) /\
         Feature.get row "area_ha" = Feature.get region "area_ha")
      c rows.
Proof.
  intros _. eexists _, _, _, _.
  split; [apply lines_39_49_closed|]. split; [reflexivity|].
  split; [reflexivity|]. split; [reflexivity|].
  split; [apply raster_closed|]. split; [reflexivity|].
  cbn [r_areas]. unfold Feature.reduceRegions. rewrite map_map.
  induction c as [|r rs IH]; simpl; constructor; [|apply IH].
  repeat split.
  - unfold Feature.reduce_feature. by rewrite fold_set_geometry.
  - rewrite reduce_feature_get.
    + unfold addArea_ha, Feature.get, Feature.set; simpl. by rewrite lookup_insert_eq.
    + done.
    + intros ab [= <-]. repeat split; done.
  - rewrite reduce_feature_get.
    + unfold addArea_ha, Feature.get, Feature.set; simpl. by rewrite lookup_insert_ne.
    + done.
    + intros ab [= <-]. repeat split; done.
Qed.

(** C4, as the code has it.  No statement checks the three numbers.  The
    script as committed stops at line 50 with the same error whatever the
    configuration; and the raster statements of lines 85-134 raise no
    error for any threshold and any years in the exact range of doubles:
    they compute the baseline band [fc<yr_str>] at every pixel. *)
Theorem C4_no_configuration_check :
  safe_years cfg = true ->
  script = Err "TypeError: table.filter is not a function" /\
  is_ok raster_statements = true /\
  forall p, exists v, fc (yr_str cfg) p = Some v.
Proof.
  intros _. split; [apply script_closed|]. split.
  - by rewrite raster_closed.
  - intros p. eexists. apply fc_read_baseline.
Qed.

(** * Further properties *)

Lemma baseline_read p : baseline p = Some (fc_str_band p).
Proof. unfold baseline. by rewrite fc_str_closed. Qed.


(** Membership in the baseline band, as lines 95-97 compute it: the band
    takes no value but 1, and is defined at a pixel exactly when the tree
    cover is defined and at least the threshold, and the loss year is
    masked or at least [yr_str - 2000 + 1]. *)
Theorem baseline_membership (p : Pixel) :
  safe_years cfg = true ->
  (baseline p = Some (Some 1%Q) \/ baseline p = Some None) /\
  (baseline p = Some (Some 1%Q) <->
   exists t, treecover2000 inp p = Some t /\
             Qle_bool (tree_cover cfg) (inject_Z t) = true /\
             match lossyear inp p with
             | None => True
             | Some l => yr_str cfg - 2000 + 1 <= l
             end).
Proof.
  intros _. rewrite baseline_read. split.
  { destruct (fc_str_band_values p) as [-> | ->]; auto. }
  rewrite fc_str_band_spec.
  destruct (treecover2000 inp p) as [t|]; [|split; [done | by intros (? & ? & _)]].
  destruct (Qle_bool (tree_cover cfg) (inject_Z t)) eqn:Ht.
  - destruct (lossyear inp p) as [l|].
    + destruct (Z.leb_spec (yr_str cfg - 2000 + 1) l).
      * split; [intros _; by exists t | done].
      * split; [done | intros (? & _ & _ & ?); lia].
    + split; [intros _; by exists t | done].
  - split; [done | intros (t' & [= <-] & ? & _); congruence].
Qed.

(** Emissions subset law, on the statements of lines 125-128: for a year
    [y] in [(yr_str, yr_end]], the band [ce<y>] is [TotalCO2] kept where
    [fl<y>] equals 1 and masked elsewhere; where [ce<y>] is defined,
    [fl<y>] is defined and the value of [ce<y>] is the pixel's
    [TotalCO2]. *)
Theorem emissions_subset_law (y : Z) (p : Pixel) :
  safe_years cfg = true ->
  yr_str cfg < y <= yr_end cfg ->
  exists f t,
    fl y p = Some f /\ TotalCO2 p = Some t /\
    ce y p = Some (match f with
                   | Some v => if Qeq_bool v 1 then t else None
                   | None => None
                   end) /\
    (is_defined (ce y p) -> is_defined (fl y p) /\ ce y p = TotalCO2 p).
Proof.
  intros _ Hy. destruct single_read as (_ & _ & Hte).
  exists (fl_band (y - 2000) p), (teco2_band p).
  rewrite fl_read, ce_read, Hte by done. rewrite ce_band_spec.
  split; [done|]. split; [done|].
  destruct (fl_band_values (y - 2000) p) as [-> | ->]; simpl.
  - split; [done|]. intros _. split; [by exists 1%Q | done].
  - split; [done|]. by intros [q Hq].
Qed.

(** Pixel balance of one iteration of the forest-cover loop (lines
    107-116): for a year [y] in [(yr_str, yr_end]], a pixel is forest in
    [fc<y-1>] exactly when it is forest in [fc<y>] or lost in [fl<y>], and
    never both. *)
Theorem forest_splits_into_kept_and_lost (y : Z) (p : Pixel) :
  safe_years cfg = true ->
  yr_str cfg < y <= yr_end cfg ->
  (is_defined (fc (y - 1) p) <-> is_defined (fc y p) \/ is_defined (fl y p)) /\
  ~ (is_defined (fc y p) /\ is_defined (fl y p)).
Proof.
  intros _ Hy. rewrite !fc_read, fl_read by lia.
  destruct (year_index y (proj1 Hy)) as [-> ->].
  rewrite fc_band_step.
  set (n := Z.to_nat (y - 1 - yr_str cfg)).
  pose proof (fl_in_fc n p) as Hin.
  destruct (fl_band (lo + Z.of_nat n) p) as [q|].
  - rewrite (Hin q eq_refl). split.
    + split; [intros _; right; by exists q | intros _; by exists q].
    + by intros [[? ?] _].
  - split.
    + split; [by left | by intros [? | [? ?]]].
    + by intros [_ [? ?]].
Qed.

(** Emissions appear where stock disappears (lines 119-128): for a year
    [y] in [(yr_str, yr_end]], [ce<y>] is defined at a pixel exactly when
    [cb<y-1>] is defined there and [cb<y>] is not, and its value is then
    the value of [cb<y-1>] times 3.67, in the arithmetic of the runtime. *)
Theorem emissions_where_stock_disappears (y : Z) (p : Pixel) :
  safe_years cfg = true ->
  yr_str cfg < y <= yr_end cfg ->
  (is_defined (ce y p) <-> is_defined (cb (y - 1) p) /\ ~ is_defined (cb y p)) /\
  (forall c, cb (y - 1) p = Some (Some c) -> is_defined (ce y p) ->
     ce y p = Some (Some (num_mul ar c (num_lit ar 3.67)))).
Proof.
  intros _ Hy. rewrite ce_read, !cb_read by lia.
  rewrite ce_band_spec, !cb_band_spec.
  set (n := Z.to_nat (y - 1 - yr_str cfg)).
  replace (fc_index (y - 1 - 2000)) with n by (unfold fc_index, n; lia).
  replace (fc_index (y - 2000)) with (S n) by (unfold fc_index, n; lia).
  replace (y - 2000) with (lo + Z.of_nat n) by (unfold lo, n; lia).
  rewrite fc_band_step. pose proof (fl_in_fc n p) as Hin.
  unfold teco2_band, Image.lift2.
  destruct (fl_band (lo + Z.of_nat n) p) as [q|].
  - rewrite (Hin q eq_refl). destruct (tbcarbon_band p) as [t|]; split.
    + split; [intros _; split; [by eexists | by intros [? ?]] | intros _; by eexists].
    + by intros c [= ->] _.
    + split; [by intros [? ?] | by intros [[? ?] _]].
    + by intros c.
  - split.
    + split; [by intros [? ?] | by intros [Hd Hn]].
    + by intros c _ [? ?].
Qed.

(** Carbon needs biomass (lines 85-88 and 119-122): for a year [y] in
    [[yr_str, yr_end]], [cb<y>] is defined at a pixel exactly when [fc<y>]
    is defined there and the above-ground biomass is not masked there;
    forest over masked biomass is in [fc<y>] and not in [cb<y>]. *)
Theorem carbon_stock_needs_biomass (y : Z) (p : Pixel) :
  safe_years cfg = true ->
  yr_str cfg <= y <= yr_end cfg ->
  (is_defined (cb y p) <-> is_defined (fc y p) /\ agb_band inp p <> None).
Proof.
  intros _ Hy. rewrite fc_read, cb_read by done. rewrite cb_band_spec.
  replace (fc_index (y - 2000)) with (Z.to_nat (y - yr_str cfg))
    by (unfold fc_index; lia).
  unfold tbcarbon_band, bgb_band, Image.lift2.
  destruct (fc_band (Z.to_nat (y - yr_str cfg)) p) as [v|], (agb_band inp p) as [a|].
  - split; [intros _; split; [by exists v | done] | intros _; by eexists].
  - split; [by intros [? ?] | by intros [_ ?]].
  - split; [by intros [? ?] | by intros [[? ?] _]].
  - split; [by intros [? ?] | by intros [[? ?] _]].
Qed.

(** An end year before the start year (lines 107-131): no loop body runs,
    the loss, stock and emission stacks are empty and the assembled stack
    is the single band [fc<yr_str>]. *)
Theorem reversed_years_leave_one_band :
  safe_years cfg = true ->
  yr_end cfg < yr_str cfg ->
  exists r, raster_statements = Ok r /\
    Image.bandNames (r_output r) = [band_name "fc" (yr_str cfg)] /\
    r_fl_stack r = [] /\ r_cb_stack r = [] /\ r_ce_stack r = [].
Proof.
  intros _ Hlt.
  assert (Hfl : for_range lo hi = []) by (apply seqZ_nil; unfold lo, hi; lia).
  assert (Hcb : for_range (yr_str cfg - 2000) hi = []) by (apply seqZ_nil; unfold hi; lia).
  assert (Hn : n_years = 0%nat) by (unfold n_years; lia).
  assert (Hname : fc_name 0 = band_name "fc" (yr_str cfg))
    by (unfold fc_name; f_equal; simpl; lia).
  eexists. split; [apply raster_closed|].
  cbn [r_output r_fl_stack r_cb_stack r_ce_stack].
  unfold output_img, fc_stack_img, fl_stack_img, cb_stack_img, ce_stack_img, fc_stack_upto.
  rewrite Hfl, Hcb, Hn. simpl. by rewrite Hname.
Qed.

(** The loss layer drawn on the map (lines 103-104) agrees with the loss
    bands of lines 107-110: it is defined at a pixel exactly when some
    [fl<y>], for a year [y] in [(yr_str, yr_end]], is defined there, and
    its value is then [y - 2000]. *)
Theorem loss_layer_matches_loss_bands (p : Pixel) :
  safe_years cfg = true ->
  exists v,
    loss_layer_at p = Some v /\
    forall q, v = Some q <->
      exists y, yr_str cfg < y <= yr_end cfg /\ q = inject_Z (y - 2000) /\
                is_defined (fl y p).
Proof.
  intros _. eexists. split; [apply loss_layer_spec|]. intros q. split.
  - destruct (lossyear inp p) as [l|] eqn:Hl; [|done].
    destruct (treecover2000 inp p) as [t|] eqn:Ht; [|done].
    destruct (Qle_bool (tree_cover cfg) (inject_Z t)) eqn:Hq; [|done].
    destruct (Z.ltb_spec (yr_str cfg - 2000) l); [|done].
    destruct (Z.leb_spec l (yr_end cfg - 2000)); [|done]. simpl.
    intros [= <-]. exists (l + 2000).
    split; [lia|]. split; [f_equal; lia|].
    rewrite fl_read by lia. rewrite fl_band_spec, Hl.
    replace (l =? l + 2000 - 2000) with true by (symmetry; apply Z.eqb_eq; lia).
    rewrite fc_str_band_spec, Ht, Hq, Hl.
    replace (yr_str cfg - 2000 + 1 <=? l) with true by (symmetry; apply Z.leb_le; lia).
    by exists 1%Q.
  - intros (y & Hy & -> & [q' Hdef]). rewrite fl_read in Hdef by done.
    rewrite fl_band_spec in Hdef.
    destruct (lossyear inp p) as [l|]; [|done].
    destruct (Z.eqb_spec l (y - 2000)) as [Heq|]; [subst l|done].
    rewrite fc_str_band_spec in Hdef.
    destruct (treecover2000 inp p) as [t|]; [|done].
    destruct (Qle_bool (tree_cover cfg) (inject_Z t)); [|done]. simpl.
    replace (yr_str cfg - 2000 <? y - 2000) with true by (symmetry; apply Z.ltb_lt; lia).
    replace (y - 2000 <=? yr_end cfg - 2000) with true by (symmetry; apply Z.leb_le; lia).
    done.
Qed.

(** The columns of the export fit the bands of one configuration only
    (lines 144-147 against line 131): the column list is the three region
    attributes followed by the band names of [output], in order, exactly
    when [yr_str] is 2000 and [yr_end] is 2021. *)
Theorem export_columns_fit_2000_2021_only :
  safe_years cfg = true ->
  (selectors = attribute_selectors ++ output_bands <->
   yr_str cfg = 2000 /\ yr_end cfg = 2021).
Proof.
  intros _. split.
  - intros Heq.
    assert (Hb : band_selectors = output_bands).
    { apply (app_inv_head attribute_selectors). rewrite <- Heq.
      unfold attribute_selectors, band_selectors. by rewrite take_drop. }
    assert (H1 : forall s, s ∈ band_selectors -> s ∈ output_bands) by (by rewrite Hb).
    assert (H2 : forall s, s ∈ output_bands -> s ∈ band_selectors) by (by rewrite Hb).
    apply columns_in_bands_iff in H1. apply bands_in_columns_iff in H2. lia.
  - intros [Hs He]. rewrite output_bands_years, Hs, He. vm_compute. reflexivity.
Qed.

(** Every band column of the export names a band of [output] exactly when
    the year range contains 2000-2021: with a later start or an earlier
    end, some exported column has no band behind it. *)
Theorem export_columns_exist_iff_range_covers :
  safe_years cfg = true ->
  ((forall s, s ∈ band_selectors -> s ∈ output_bands) <->
   yr_str cfg <= 2000 /\ 2021 <= yr_end cfg).
Proof. intros _. apply columns_in_bands_iff. Qed.

(** Every band of [output] has a column in the export exactly when the
    start year lies in 2000-2021 and the end year is at most 2021: a band
    of any other year is left out of the table. *)
Theorem export_covers_bands_iff_range_within :
  safe_years cfg = true ->
  ((forall s, s ∈ output_bands -> s ∈ band_selectors) <->
   2000 <= yr_str cfg <= 2021 /\ yr_end cfg <= 2021).
Proof. intros _. apply bands_in_columns_iff. Qed.

End forest_carbon.

(** * The raster statements under two configurations *)

(** Moving the end year leaves the earlier bands alone: for a year [y] of
    the range that is also at most the new end year [e], the bands
    [fc<y>], [cb<y>], [fl<y>] and [ce<y>] are the same under both end
    years. *)
Theorem end_year_does_not_change_earlier_bands {Pixel : Type} (ar : Arithmetic)
    (cfg : Config) (inp : Inputs Pixel) (e y : Z) (p : Pixel) :
  safe_years cfg = true ->
  safe_years (with_yr_end cfg e) = true ->
  yr_str cfg <= y <= yr_end cfg ->
  y <= e ->
  fc ar (with_yr_end cfg e) inp y p = fc ar cfg inp y p /\
  cb ar (with_yr_end cfg e) inp y p = cb ar cfg inp y p /\
  (yr_str cfg < y ->
   fl ar (with_yr_end cfg e) inp y p = fl ar cfg inp y p /\
   ce ar (with_yr_end cfg e) inp y p = ce ar cfg inp y p).
Proof.
  intros _ _ Hy He.
  assert (Hfc : forall n, fc_band (with_yr_end cfg e) inp n p = fc_band cfg inp n p).
  { intros n. by rewrite !fc_band_spec, !fc_str_band_spec. }
  assert (Hfl : forall k, fl_band (with_yr_end cfg e) inp k p = fl_band cfg inp k p).
  { intros k. by rewrite !fl_band_spec, !fc_str_band_spec. }
  split; [|split].
  - rewrite !fc_read by (simpl; lia). by rewrite Hfc.
  - rewrite !cb_read by (simpl; lia). by rewrite !cb_band_spec, Hfc.
  - intros Hlt. split.
    + rewrite !fl_read by (simpl; lia). by rewrite Hfl.
    + rewrite !ce_read by (simpl; lia). by rewrite !ce_band_spec, Hfl.
Qed.

(** Raising the tree-cover threshold can only shrink the forest (lines
    95-97 and 113-116): a pixel that is forest in [fc<y>] under the
    threshold [t] is forest in [fc<y>] under every lower threshold. *)
Theorem higher_threshold_shrinks_forest {Pixel : Type} (ar : Arithmetic)
    (cfg : Config) (inp : Inputs Pixel) (t : Q) (y : Z) (p : Pixel) :
  safe_years cfg = true ->
  (tree_cover cfg <= t)%Q ->
  yr_str cfg <= y <= yr_end cfg ->
  is_defined (fc ar (with_tree_cover cfg t) inp y p) ->
  is_defined (fc ar cfg inp y p).
Proof.
  intros _ Ht Hy. rewrite !fc_read by (simpl; lia). intros [q Hq]. exists q.
  revert Hq. injection 1 as Hq. f_equal. revert Hq.
  rewrite !fc_band_spec, !fc_str_band_spec. unfold lo; simpl.
  assert (Hle : forall tc, Qle_bool t (inject_Z tc) = true ->
                           Qle_bool (tree_cover cfg) (inject_Z tc) = true).
  { intros tc Htc%Qle_bool_iff. apply Qle_bool_iff. by apply (Qle_trans _ t). }
  destruct (lossyear inp p) as [l|], (treecover2000 inp p) as [tc|];
    repeat match goal with
           | |- context [if ?c && ?d then _ else _] => destruct (c && d)
           end; try done.
  - destruct (Qle_bool t (inject_Z tc)) eqn:Htc; [|done]. by rewrite (Hle tc Htc).
  - destruct (Qle_bool t (inject_Z tc)) eqn:Htc; [|done]. by rewrite (Hle tc Htc).
Qed.

(** * The claims on concrete inputs *)

(** C3, on lines 95-97.  At the scenario of the specification (threshold
    30, start year 2000), the pixel (0,0) has tree cover 50 and loss year
    0; line 96 compares 0 with 1, gets 0, and [unmask] leaves a defined 0
    alone: the pixel is masked in [fc_str], hence in [fc2000].  It is kept
    only where the loss year is masked. *)
Theorem C3_never_lost_pixel_with_lossyear_zero :
  treecover2000 (scenario_inp (Some 0)) (0, 0) = Some 50 /\
  lossyear (scenario_inp (Some 0)) (0, 0) = Some 0 /\
  baseline scenario_cfg (scenario_inp (Some 0)) (0, 0) = Some None /\
  baseline scenario_cfg (scenario_inp None) (0, 0) = Some (Some 1%Q) /\
  fc rational_arithmetic scenario_cfg (scenario_inp (Some 0)) 2000 (0, 0) = Some None /\
  fc rational_arithmetic scenario_cfg (scenario_inp None) 2000 (0, 0) = Some (Some 1%Q).
Proof. vm_compute. done. Qed.

(** C4 fails on the code.  Three configurations that the specification
    calls errors (end year before start year; years outside the epoch;
    threshold above 100) end exactly as the valid configuration of the
    scenario ends, in the error of line 50, and the raster statements
    accept all three: neither the script nor its raster statements reject
    a configuration error. *)
Lemma C4_counterexample :
  (configuration_error reversed_years_cfg = true /\
   configuration_error before_epoch_cfg = true /\
   configuration_error threshold_cfg = true /\
   configuration_error scenario_cfg = false) /\
  (script rational_arithmetic reversed_years_cfg (scenario_inp None) =
     script rational_arithmetic scenario_cfg (scenario_inp None) /\
   script rational_arithmetic before_epoch_cfg (scenario_inp None) =
     script rational_arithmetic scenario_cfg (scenario_inp None) /\
   script rational_arithmetic threshold_cfg (scenario_inp None) =
     script rational_arithmetic scenario_cfg (scenario_inp None)) /\
  (is_ok (raster_statements rational_arithmetic reversed_years_cfg (scenario_inp None)) = true /\
   is_ok (raster_statements rational_arithmetic before_epoch_cfg (scenario_inp None)) = true /\
   is_ok (raster_statements rational_arithmetic threshold_cfg (scenario_inp None)) = true) /\
  ~ rejects_configuration_errors
      (fun c => script rational_arithmetic c (scenario_inp None)) /\
  ~ rejects_configuration_errors
      (fun c => raster_statements rational_arithmetic c (scenario_inp None)).
Proof.
  split; [by vm_compute|]. split; [by vm_compute|]. split; [by vm_compute|]. split.
  - intros H. destruct (H reversed_years_cfg eq_refl) as (msg & Hmsg & Hvalid).
    apply (Hvalid scenario_cfg eq_refl). by rewrite script_closed in *.
  - intros H. destruct (H reversed_years_cfg eq_refl) as (msg & Hmsg & _).
    by rewrite raster_closed in Hmsg.
Qed.

(** Rational addition commutes on the nose. *)
Lemma Qplus_comm_eq (x y : Q) : (x + y)%Q = (y + x)%Q.
Proof.
  destruct x as [a b], y as [c d]. unfold Qplus; simpl. f_equal; [lia|].
  apply Pos.mul_comm.
Qed.

Lemma C1_witness :
  safe_years scenario_cfg = true /\
  yr_str scenario_cfg <= 2001 <= yr_end scenario_cfg /\
  ((fc rational_arithmetic scenario_cfg (scenario_inp None) 2001 (0, 0) = Some (Some 1%Q) \/
    fc rational_arithmetic scenario_cfg (scenario_inp None) 2001 (0, 0) = Some None) /\
   (fc rational_arithmetic scenario_cfg (scenario_inp None) 2001 (0, 0) = Some (Some 1%Q) <->
    fc rational_arithmetic scenario_cfg (scenario_inp None) (yr_str scenario_cfg) (0, 0)
      = Some (Some 1%Q) /\
    no_recorded_loss (scenario_inp None) (0, 0) (yr_str scenario_cfg) 2001)).
Proof.
  split; [reflexivity|]. split; [simpl; lia|].
  apply (C1_forest_cover_contract rational_arithmetic scenario_cfg (scenario_inp None)
           2001 (0, 0)); [reflexivity | simpl; lia].
Defined.

Lemma C2_witness :
  safe_years scenario_cfg = true /\
  yr_str scenario_cfg < 2001 <= yr_end scenario_cfg /\
  ((is_defined (fc rational_arithmetic scenario_cfg (scenario_inp None) 2001 (0, 0)) ->
    is_defined (fc rational_arithmetic scenario_cfg (scenario_inp None) (2001 - 1) (0, 0))) /\
   (forall y0, yr_str scenario_cfg <= y0 <= 2001 ->
      ~ is_defined (fc rational_arithmetic scenario_cfg (scenario_inp None) y0 (0, 0)) ->
      ~ is_defined (fc rational_arithmetic scenario_cfg (scenario_inp None) 2001 (0, 0)))).
Proof.
  split; [reflexivity|]. split; [simpl; lia|].
  apply (C2_monotonic_shrinkage rational_arithmetic scenario_cfg (scenario_inp None)
           2001 (0, 0)); [reflexivity | simpl; lia].
Defined.

Lemma C4_witness :
  safe_years reversed_years_cfg = true /\
  script rational_arithmetic reversed_years_cfg (scenario_inp None) =
    Err "TypeError: table.filter is not a function" /\
  is_ok (raster_statements rational_arithmetic reversed_years_cfg (scenario_inp None)) = true /\
  forall p, exists v,
    fc rational_arithmetic reversed_years_cfg (scenario_inp None)
       (yr_str reversed_years_cfg) p = Some v.
Proof.
  split; [reflexivity|].
  apply (C4_no_configuration_check rational_arithmetic reversed_years_cfg (scenario_inp None)).
  reflexivity.
Defined.

Lemma C5_witness :
  (forall x y, num_add rational_arithmetic x y = num_add rational_arithmetic y x) /\
  agb_band (scenario_inp None) (0, 0) = Some 100%Q /\
  (0 <= 100)%Q /\
  exists b c,
    b = num_mul rational_arithmetic (num_lit rational_arithmetic 0.489)
          (num_pow rational_arithmetic 100 (num_lit rational_arithmetic 0.89)) /\
    c = num_mul rational_arithmetic (num_add rational_arithmetic 100 b)
          (num_lit rational_arithmetic 0.5) /\
    BGB rational_arithmetic scenario_cfg (scenario_inp None) (0, 0) = Some (Some b) /\
    TotalCarbon rational_arithmetic scenario_cfg (scenario_inp None) (0, 0) = Some (Some c) /\
    TotalCO2 rational_arithmetic scenario_cfg (scenario_inp None) (0, 0) =
      Some (Some (num_mul rational_arithmetic c (num_lit rational_arithmetic 3.67))).
Proof.
  split; [exact Qplus_comm_eq|]. split; [reflexivity|]. split; [by vm_compute|].
  destruct (C5_biomass_formulas rational_arithmetic scenario_cfg (scenario_inp None) (0, 0)
              Qplus_comm_eq) as [Hdef _].
  apply Hdef; [reflexivity | by vm_compute].
Defined.

Lemma C6_witness :
  safe_years scenario_cfg = true /\
  yr_str scenario_cfg < 2001 <= yr_end scenario_cfg /\
  exists base,
    fc rational_arithmetic scenario_cfg (scenario_inp None) (yr_str scenario_cfg) (0, 1)
      = Some base /\
    fl rational_arithmetic scenario_cfg (scenario_inp None) 2001 (0, 1) =
      Some (match lossyear (scenario_inp None) (0, 1) with
            | Some l => if l =? 2001 - 2000 then base else None
            | None => None
            end) /\
    (~ is_defined (fc rational_arithmetic scenario_cfg (scenario_inp None)
                      (yr_str scenario_cfg) (0, 1)) ->
     ~ is_defined (fl rational_arithmetic scenario_cfg (scenario_inp None) 2001 (0, 1))).
Proof.
  split; [reflexivity|]. split; [simpl; lia|].
  apply (C6_loss_scoped_to_baseline rational_arithmetic scenario_cfg (scenario_inp None)
           2001 (0, 1)); [reflexivity | simpl; lia].
Defined.

Lemma C7_witness :
  safe_years scenario_cfg = true /\
  yr_str scenario_cfg < 2001 <= yr_end scenario_cfg /\
  yr_str scenario_cfg < 2002 <= yr_end scenario_cfg /\
  2001 <> 2002 /\
  ~ (is_defined (fl rational_arithmetic scenario_cfg (scenario_inp None) 2001 (0, 1)) /\
     is_defined (fl rational_arithmetic scenario_cfg (scenario_inp None) 2002 (0, 1))).
Proof.
  split; [reflexivity|]. split; [simpl; lia|]. split; [simpl; lia|]. split; [lia|].
  apply (C7_loss_years_exclusive rational_arithmetic scenario_cfg (scenario_inp None)
           2001 2002 (0, 1)); [reflexivity | simpl; lia | simpl; lia | lia].
Defined.

Lemma C8_witness :
  safe_years scenario_cfg = true /\
  yr_str scenario_cfg <= 2001 <= yr_end scenario_cfg /\
  exists f t,
    fc rational_arithmetic scenario_cfg (scenario_inp None) 2001 (0, 0) = Some f /\
    TotalCarbon rational_arithmetic scenario_cfg (scenario_inp None) (0, 0) = Some t /\
    cb rational_arithmetic scenario_cfg (scenario_inp None) 2001 (0, 0) =
      Some (match f with
            | Some v => if Qeq_bool v 1 then t else None
            | None => None
            end) /\
    (is_defined (cb rational_arithmetic scenario_cfg (scenario_inp None) 2001 (0, 0)) ->
     is_defined (fc rational_arithmetic scenario_cfg (scenario_inp None) 2001 (0, 0)) /\
     cb rational_arithmetic scenario_cfg (scenario_inp None) 2001 (0, 0) =
       TotalCarbon rational_arithmetic scenario_cfg (scenario_inp None) (0, 0)).
Proof.
  split; [reflexivity|]. split; [simpl; lia|].
  apply (C8_carbon_stock_subset rational_arithmetic scenario_cfg (scenario_inp None)
           2001 (0, 0)); [reflexivity | simpl; lia].
Defined.

Lemma C9_witness :
  safe_years scenario_cfg = true /\
  exists r,
    raster_statements rational_arithmetic scenario_cfg (scenario_inp None) = Ok r /\
    Image.bandNames (r_areas r) = Image.bandNames (r_output r) /\
    (forall name p,
       band_at (r_areas r) name p =
       option_map (to_hectares rational_arithmetic (scenario_inp None) p)
         (band_at (r_output r) name p)).
Proof.
  split; [reflexivity|].
  destruct (C9_uniform_hectare_weighting rational_arithmetic scenario_cfg (scenario_inp None)
              eq_refl) as (r & Hr & _ & Hnames & Hvalues & _).
  exists r. auto.
Defined.

Lemma C10_witness :
  safe_years scenario_cfg = true /\
  exists st rows,
    v_sa_area st = Some (map (addArea_ha rational_arithmetic) [scenario_region]) /\
    v_sa st = Some (map (addArea_area_ha rational_arithmetic) [scenario_region]) /\
    Forall2
      (fun region row =>
         Feature.geometry row = Feature.geometry region /\
         Feature.get row "ha" =
           Some (Feature.Number
                   (num_mul rational_arithmetic (Feature.area (Feature.geometry region))
                      (num_lit rational_arithmetic 0.0001))) /\
         Feature.get row "area_ha" = Feature.get region "area_ha")
      [scenario_region] rows.
Proof.
  split; [reflexivity|].
  destruct (C10_rows_carry_first_addArea rational_arithmetic scenario_cfg (scenario_inp None)
              [scenario_region] eq_refl)
    as (st49 & st & r & rows & _ & _ & Hsa_area & Hsa & _ & _ & Hrows).
  exists st, rows. auto.
Defined.

(** ** Instances of the further properties *)

Lemma baseline_membership_witness :
  safe_years scenario_cfg = true /\
  (baseline scenario_cfg (scenario_inp None) (0, 0) = Some (Some 1%Q) \/
   baseline scenario_cfg (scenario_inp None) (0, 0) = Some None).
Proof.
  split; [reflexivity|].
  destruct (baseline_membership scenario_cfg (scenario_inp None) (0, 0) eq_refl) as [H _].
  exact H.
Defined.

Lemma higher_threshold_shrinks_forest_witness :
  safe_years scenario_cfg = true /\
  (tree_cover scenario_cfg <= 40)%Q /\
  yr_str scenario_cfg <= 2001 <= yr_end scenario_cfg /\
  is_defined (fc rational_arithmetic (with_tree_cover scenario_cfg 40) (scenario_inp None)
                2001 (0, 0)) /\
  is_defined (fc rational_arithmetic scenario_cfg (scenario_inp None) 2001 (0, 0)).
Proof.
  assert (Hdef : is_defined
            (fc rational_arithmetic (with_tree_cover scenario_cfg 40) (scenario_inp None)
               2001 (0, 0)))
    by (exists 1%Q; vm_compute; reflexivity).
  split; [reflexivity|]. split; [by vm_compute|]. split; [simpl; lia|]. split; [exact Hdef|].
  apply (higher_threshold_shrinks_forest rational_arithmetic scenario_cfg (scenario_inp None)
           40 2001 (0, 0)); [reflexivity | by vm_compute | simpl; lia | exact Hdef].
Defined.

Lemma emissions_subset_law_witness :
  safe_years scenario_cfg = true /\
  yr_str scenario_cfg < 2001 <= yr_end scenario_cfg /\
  exists f t,
    fl rational_arithmetic scenario_cfg (scenario_inp None) 2001 (0, 1) = Some f /\
    TotalCO2 rational_arithmetic scenario_cfg (scenario_inp None) (0, 1) = Some t /\
    ce rational_arithmetic scenario_cfg (scenario_inp None) 2001 (0, 1) =
      Some (match f with
            | Some v => if Qeq_bool v 1 then t else None
            | None => None
            end) /\
    (is_defined (ce rational_arithmetic scenario_cfg (scenario_inp None) 2001 (0, 1)) ->
     is_defined (fl rational_arithmetic scenario_cfg (scenario_inp None) 2001 (0, 1)) /\
     ce rational_arithmetic scenario_cfg (scenario_inp None) 2001 (0, 1) =
       TotalCO2 rational_arithmetic scenario_cfg (scenario_inp None) (0, 1)).
Proof.
  split; [reflexivity|]. split; [simpl; lia|].
  apply (emissions_subset_law rational_arithmetic scenario_cfg (scenario_inp None)
           2001 (0, 1)); [reflexivity | simpl; lia].
Defined.

Lemma forest_splits_into_kept_and_lost_witness :
  safe_years scenario_cfg = true /\
  yr_str scenario_cfg < 2001 <= yr_end scenario_cfg /\
  ((is_defined (fc rational_arithmetic scenario_cfg (scenario_inp None) (2001 - 1) (0, 1)) <->
    is_defined (fc rational_arithmetic scenario_cfg (scenario_inp None) 2001 (0, 1)) \/
    is_defined (fl rational_arithmetic scenario_cfg (scenario_inp None) 2001 (0, 1))) /\
   ~ (is_defined (fc rational_arithmetic scenario_cfg (scenario_inp None) 2001 (0, 1)) /\
      is_defined (fl rational_arithmetic scenario_cfg (scenario_inp None) 2001 (0, 1)))).
Proof.
  split; [reflexivity|]. split; [simpl; lia|].
  apply (forest_splits_into_kept_and_lost rational_arithmetic scenario_cfg (scenario_inp None)
           2001 (0, 1)); [reflexivity | simpl; lia].
Defined.

Lemma emissions_where_stock_disappears_witness :
  safe_years scenario_cfg = true /\
  yr_str scenario_cfg < 2001 <= yr_end scenario_cfg /\
  (is_defined (ce rational_arithmetic scenario_cfg (scenario_inp None) 2001 (0, 1)) <->
   is_defined (cb rational_arithmetic scenario_cfg (scenario_inp None) (2001 - 1) (0, 1)) /\
   ~ is_defined (cb rational_arithmetic scenario_cfg (scenario_inp None) 2001 (0, 1))).
Proof.
  split; [reflexivity|]. split; [simpl; lia|].
  destruct (emissions_where_stock_disappears rational_arithmetic scenario_cfg
              (scenario_inp None) 2001 (0, 1)) as [H _]; [reflexivity | simpl; lia | exact H].
Defined.

Lemma carbon_stock_needs_biomass_witness :
  safe_years scenario_cfg = true /\
  yr_str scenario_cfg <= 2001 <= yr_end scenario_cfg /\
  (is_defined (cb rational_arithmetic scenario_cfg (scenario_inp None) 2001 (0, 0)) <->
   is_defined (fc rational_arithmetic scenario_cfg (scenario_inp None) 2001 (0, 0)) /\
   agb_band (scenario_inp None) (0, 0) <> None).
Proof.
  split; [reflexivity|]. split; [simpl; lia|].
  apply (carbon_stock_needs_biomass rational_arithmetic scenario_cfg (scenario_inp None)
           2001 (0, 0)); [reflexivity | simpl; lia].
Defined.

Lemma reversed_years_leave_one_band_witness :
  safe_years reversed_years_cfg = true /\
  yr_end reversed_years_cfg < yr_str reversed_years_cfg /\
  exists r,
    raster_statements rational_arithmetic reversed_years_cfg (scenario_inp None) = Ok r /\
    Image.bandNames (r_output r) = [band_name "fc" (yr_str reversed_years_cfg)] /\
    r_fl_stack r = [] /\ r_cb_stack r = [] /\ r_ce_stack r = [].
Proof.
  split; [reflexivity|]. split; [simpl; lia|].
  apply (reversed_years_leave_one_band rational_arithmetic reversed_years_cfg
           (scenario_inp None)); [reflexivity | simpl; lia].
Defined.

Lemma loss_layer_matches_loss_bands_witness :
  safe_years scenario_cfg = true /\
  exists v,
    loss_layer_at scenario_cfg (scenario_inp None) (0, 1) = Some v /\
    forall q, v = Some q <->
      exists y, yr_str scenario_cfg < y <= yr_end scenario_cfg /\ q = inject_Z (y - 2000) /\
                is_defined (fl rational_arithmetic scenario_cfg (scenario_inp None) y (0, 1)).
Proof.
  split; [reflexivity|].
  apply (loss_layer_matches_loss_bands rational_arithmetic scenario_cfg (scenario_inp None)
           (0, 1)). reflexivity.
Defined.

Lemma export_columns_fit_2000_2021_only_witness :
  safe_years scenario_cfg = true /\
  (selectors =
     attribute_selectors ++ output_bands rational_arithmetic scenario_cfg (scenario_inp None) <->
   yr_str scenario_cfg = 2000 /\ yr_end scenario_cfg = 2021).
Proof.
  split; [reflexivity|].
  apply (export_columns_fit_2000_2021_only rational_arithmetic scenario_cfg (scenario_inp None)).
  reflexivity.
Defined.

Lemma export_columns_exist_iff_range_covers_witness :
  safe_years scenario_cfg = true /\
  ((forall s, s ∈ band_selectors ->
      s ∈ output_bands rational_arithmetic scenario_cfg (scenario_inp None)) <->
   yr_str scenario_cfg <= 2000 /\ 2021 <= yr_end scenario_cfg).
Proof.
  split; [reflexivity|].
  apply (export_columns_exist_iff_range_covers rational_arithmetic scenario_cfg
           (scenario_inp None)). reflexivity.
Defined.

Lemma export_covers_bands_iff_range_within_witness :
  safe_years scenario_cfg = true /\
  ((forall s, s ∈ output_bands rational_arithmetic scenario_cfg (scenario_inp None) ->
      s ∈ band_selectors) <->
   2000 <= yr_str scenario_cfg <= 2021 /\ yr_end scenario_cfg <= 2021).
Proof.
  split; [reflexivity|].
  apply (export_covers_bands_iff_range_within rational_arithmetic scenario_cfg
           (scenario_inp None)). reflexivity.
Defined.

Lemma end_year_does_not_change_earlier_bands_witness :
  safe_years scenario_cfg = true /\
  safe_years (with_yr_end scenario_cfg 2021) = true /\
  yr_str scenario_cfg <= 2001 <= yr_end scenario_cfg /\
  2001 <= 2021 /\
  fc rational_arithmetic (with_yr_end scenario_cfg 2021) (scenario_inp None) 2001 (0, 0) =
  fc rational_arithmetic scenario_cfg (scenario_inp None) 2001 (0, 0).
Proof.
  split; [reflexivity|]. split; [reflexivity|]. split; [simpl; lia|]. split; [lia|].
  destruct (end_year_does_not_change_earlier_bands rational_arithmetic scenario_cfg
              (scenario_inp None) 2021 2001 (0, 0)) as [Hfc _];
    [reflexivity | reflexivity | simpl; lia | lia | exact Hfc].
Defined.
